(** * music-dl: the protected-stream acquisition pipeline of [music_dl.py]

    A shallow embedding of [src/music_dl.py]: manifest parsing
    ([fetch_stream_segments], [resolve_stream_uri]), key negotiation
    ([obtain_content_key]), segment assembly and decryption
    ([download_drm_stream]) and the orchestration of [main], followed by the
    properties of the specification that concern them.

    Conventions of the embedding.
    - A Python [str] is a [string]; a character is a code point below 256,
      with the Unicode classification Python gives those code points
      (white space, line boundaries, lower-casing).
    - Python [bytes] are [list byte].
    - The HTTP client, the key-system library (pywidevine), the external
      decryption program and the operating system are not part of the
      repository: they are the fields of an environment record [Env].
    - Effects (the file system, the standard error stream, the calls made to
      the key system and to subprocesses) are threaded through a state and
      exception monad [M]. *)

From Stdlib Require Import String Ascii List ZArith Lia Bool.
From Stdlib.Strings Require Import Byte.
From stdpp Require Import gmap strings.
Import ListNotations.

Local Open Scope string_scope.
Local Open Scope list_scope.
Local Open Scope stdpp_scope.

(** ** Python strings *)

Module PyStr.

(** The double quote character, code point 34. *)
Definition dquote : ascii := ascii_of_nat 34.

(** [c.isspace()] on the code points below 256: the ASCII white space
    9..13 and 28..32, NEL (133) and the no-break space (160). *)
Definition isspace (c : ascii) : bool :=
  let n := nat_of_ascii c in
  (((9 <=? n) && (n <=? 13)) || ((28 <=? n) && (n <=? 32))
   || (n =? 133) || (n =? 160))%nat.

(** Line boundaries of [str.splitlines]: LF, VT, FF, CR, FS, GS, RS, NEL
    (CR LF counts as one boundary). *)
Definition is_linebreak (c : ascii) : bool :=
  let n := nat_of_ascii c in
  (((10 <=? n) && (n <=? 13)) || ((28 <=? n) && (n <=? 30))
   || (n =? 133))%nat.

Definition is_CR (c : ascii) : bool := (nat_of_ascii c =? 13)%nat.
Definition is_LF (c : ascii) : bool := (nat_of_ascii c =? 10)%nat.

(** [s.startswith(p)] *)
Fixpoint startswith (s p : string) {struct p} : bool :=
  match p with
  | EmptyString => true
  | String a p' =>
      match s with
      | EmptyString => false
      | String b s' => Ascii.eqb a b && startswith s' p'
      end
  end.

(** Python truthiness of a string: non-empty. *)
Definition truthy (s : string) : bool :=
  match s with EmptyString => false | String _ _ => true end.

Fixpoint lstrip (s : string) : string :=
  match s with
  | EmptyString => EmptyString
  | String c r => if isspace c then lstrip r else s
  end.

Fixpoint rstrip (s : string) : string :=
  match s with
  | EmptyString => EmptyString
  | String c r =>
      match rstrip r with
      | EmptyString => if isspace c then EmptyString else String c EmptyString
      | r' => String c r'
      end
  end.

(** [s.strip()] *)
Definition strip (s : string) : string := rstrip (lstrip s).

(** [s.splitlines()] (line ends are not kept; no empty last line after a
    final boundary). *)
Fixpoint splitlines (s : string) : list string :=
  match s with
  | EmptyString => []
  | String c r =>
      if is_linebreak c then
        match r with
        | String d r' =>
            if is_CR c && is_LF d then EmptyString :: splitlines r'
            else EmptyString :: splitlines r
        | EmptyString => [EmptyString]
        end
      else
        match splitlines r with
        | [] => [String c EmptyString]
        | l :: ls => String c l :: ls
        end
  end.

(** [c.lower()] on the code points below 256: A..Z, and the Latin-1
    capitals 192..222 except the multiplication sign 215. *)
Definition lower_char (c : ascii) : ascii :=
  let n := nat_of_ascii c in
  if (((65 <=? n) && (n <=? 90))
      || ((192 <=? n) && (n <=? 222) && negb (n =? 215)))%nat
  then ascii_of_nat (n + 32) else c.

Fixpoint map_chars (f : ascii -> ascii) (s : string) : string :=
  match s with
  | EmptyString => EmptyString
  | String c r => String (f c) (map_chars f r)
  end.

(** [s.lower()] *)
Definition lower (s : string) : string := map_chars lower_char s.

(** [c in t] for a character [c] *)
Fixpoint char_in (c : ascii) (t : string) : bool :=
  match t with
  | EmptyString => false
  | String d r => Ascii.eqb c d || char_in c r
  end.

(** [all(p(c) for c in s)] *)
Fixpoint all_chars (p : ascii -> bool) (s : string) : bool :=
  match s with
  | EmptyString => true
  | String c r => p c && all_chars p r
  end.

(** [s.replace(x, empty)] for a one-character [x] *)
Fixpoint remove_char (x : ascii) (s : string) : string :=
  match s with
  | EmptyString => EmptyString
  | String c r =>
      if Ascii.eqb c x then remove_char x r else String c (remove_char x r)
  end.

(** [t in s] for strings: [t] occurs in [s]. *)
Fixpoint contains (s t : string) : bool :=
  startswith s t
  || match s with
     | EmptyString => false
     | String _ r => contains r t
     end.

Fixpoint take_while (p : ascii -> bool) (s : string) : string :=
  match s with
  | EmptyString => EmptyString
  | String c r => if p c then String c (take_while p r) else EmptyString
  end.

Fixpoint drop_while (p : ascii -> bool) (s : string) : string :=
  match s with
  | EmptyString => EmptyString
  | String c r => if p c then drop_while p r else s
  end.

(** The rest of [s] after the literal [p], when [s] starts with [p]. *)
Fixpoint after_prefix (p s : string) : option string :=
  match p, s with
  | EmptyString, _ => Some s
  | String a p', String b s' =>
      if Ascii.eqb a b then after_prefix p' s' else None
  | String _ _, EmptyString => None
  end.

End PyStr.

(** ** The regular expressions of the manifest parser

    Each pattern of [fetch_stream_segments] is a literal followed by one
    greedy, non-empty run of a character class (the captured group),
    optionally closed by a double quote that the class excludes; so a match
    at a position is decided by the longest run there, and [re.search] takes
    the leftmost position that matches. *)

Module Re.
Import PyStr.

(** [literal ([class]+)] followed by [closing] (a quote or nothing),
    matched at the start of [s]; returns group 1. *)
Definition match_here (literal : string) (class : ascii -> bool)
    (closing : bool) (s : string) : option string :=
  match after_prefix literal s with
  | None => None
  | Some r =>
      let g := take_while class r in
      if truthy g then
        if closing then
          match drop_while class r with
          | String c _ => if Ascii.eqb c dquote then Some g else None
          | EmptyString => None
          end
        else Some g
      else None
  end.

(** [re.search(pattern, s)] and [m.group(1)]: the leftmost match. *)
Fixpoint search (literal : string) (class : ascii -> bool)
    (closing : bool) (s : string) : option string :=
  match match_here literal class closing s with
  | Some g => Some g
  | None =>
      match s with
      | EmptyString => None
      | String _ r => search literal class closing r
      end
  end.

Definition in_range (lo hi : nat) (c : ascii) : bool :=
  ((lo <=? nat_of_ascii c) && (nat_of_ascii c <=? hi))%nat.

Definition is_digit : ascii -> bool := in_range 48 57.

(** [[0-9a-fA-F]] *)
Definition hex_class (c : ascii) : bool :=
  is_digit c || in_range 97 102 c || in_range 65 70 c.

(** [[A-Za-z0-9+/=]] *)
Definition b64_class (c : ascii) : bool :=
  in_range 65 90 c || in_range 97 122 c || is_digit c
  || char_in c "+/=".

(** The negated class: any character but the double quote. *)
Definition not_quote (c : ascii) : bool := negb (Ascii.eqb c dquote).

End Re.

(** ** Exceptions and results *)

Inductive exn : Type :=
| ValueError (msg : string)
| RuntimeError (msg : string)
| HTTPError (status : Z)          (* raised by [resp.raise_for_status()] *)
| RequestException (why : string) (* transport failure in the HTTP client *)
| OSError (why : string)          (* file system or subprocess failure *)
| CdmError (why : string)         (* any exception of the key-system library *)
| SystemExit (code : Z).          (* [sys.exit(code)] *)

(** [except Exception] catches everything but [SystemExit]. *)
Definition is_Exception (e : exn) : bool :=
  match e with SystemExit _ => false | _ => true end.

Inductive result (A : Type) : Type :=
| Ok (a : A)
| Raise (e : exn).
Arguments Ok {A} a.
Arguments Raise {A} e.

(** What a collaborator outside the repository answers: a value, or a
    failure with its message. *)
Inductive io (A : Type) : Type :=
| Done (a : A)
| Failed (why : string).
Arguments Done {A} a.
Arguments Failed {A} why.

(** ** HTTP *)

Record Response : Type := {
  status_code : Z;
  content_length : option string; (* the Content-Length header *)
  text : string;                  (* [resp.text] *)
  content : list byte;            (* [resp.content] *)
  (** [resp.iter_content(...)] of a response fetched with [stream=True]:
      the chunks delivered, and the transport failure that ends the
      stream early, if any. *)
  iter_content : list (list byte) * option string
}.

(** [resp.raise_for_status()]: statuses 400..599 raise. *)
Definition raise_for_status (r : Response) : result unit :=
  if ((400 <=? status_code r) && (status_code r <? 600))%Z
  then Raise (HTTPError (status_code r)) else Ok tt.

Definition origin_header : list (string * string) :=
  [("Origin", "https://www.udio.com")].

(** ** HLS manifest parsing *)

Record StreamManifest : Type := {
  key_id : string;
  pssh_b64 : option string;
  init_uri : string;
  segment_uris : list string
}.

Section Manifest.
Import PyStr.

(** The body of the loop of [fetch_stream_segments] (lines 179-185): one
    step on the pair of [after_extinf] and [segment_uris]. *)
Definition scan_step (st : bool * list string) (line : string)
    : bool * list string :=
  let '(after_extinf, segment_uris) := st in
  let line := strip line in
  if startswith line "#EXTINF:" then (true, segment_uris)
  else if after_extinf && truthy line && negb (startswith line "#")
  then (false, segment_uris ++ [line])
  else (after_extinf, segment_uris).

(** The [for line in ...] loop. *)
Fixpoint scan_loop (lines : list string) (st : bool * list string)
    : bool * list string :=
  match lines with
  | [] => st
  | line :: rest => scan_loop rest (scan_step st line)
  end.

(** Lines 177-185: the scan of a manifest text, from
    [segment_uris = []] and [after_extinf = False]. *)
Definition scan_segment_uris (manifest : string) : list string :=
  snd (scan_loop (splitlines manifest) (false, [])).

Definition manifest_url (song_id : string) : string :=
  "https://stream.udio.com/api/v2/audio-stream/content/" +:+ song_id
  +:+ "/manifest.m3u8".

(** Lines 168-195: from the manifest text to the returned dictionary. *)
Definition parse_manifest (song_id manifest : string)
    : result StreamManifest :=
  let key_id :=
    match Re.search "KEYID=0x" Re.hex_class false manifest with
    | Some g => lower g
    | None => remove_char "-" song_id
    end in
  let pssh_b64 :=
    Re.search ("URI=" +:+ String dquote "data:text/plain;base64,")
              Re.b64_class true manifest in
  let init_uri :=
    match Re.search ("EXT-X-MAP:URI=" +:+ String dquote "")
                    Re.not_quote true manifest with
    | Some g => g
    | None => "/api/v2/audio-stream/content/" +:+ song_id +:+ "/init.mp4"
    end in
  let segment_uris := scan_segment_uris manifest in
  match segment_uris with
  | [] => Raise (RuntimeError "No media segments found in HLS manifest")
  | _ :: _ =>
      Ok {| key_id := key_id; pssh_b64 := pssh_b64;
            init_uri := init_uri; segment_uris := segment_uris |}
  end.

(** [resolve_stream_uri] *)
Definition resolve_stream_uri (uri : string) : string :=
  if startswith uri "http://" || startswith uri "https://" then uri
  else if startswith uri "/" then "https://stream.udio.com" +:+ uri
  else "https://stream.udio.com/" +:+ uri.

End Manifest.

(** ** Paths, numbers and byte strings of the Python library *)

(** [pathlib], for paths of the POSIX flavour: a path is kept as its
    string, in the normal form [str(Path(s))] gives. Drives, the Windows
    flavour and symbolic links are not modelled. *)
Module Path.
Import PyStr.

Definition dot : ascii := ascii_of_nat 46.
Definition slash : ascii := ascii_of_nat 47.

(** A parsed path: the root (empty, one slash, or two slashes) and the
    components. *)
Record pure : Type := { root : string; parts : list string }.

(** [s.split("/")] *)
Fixpoint pieces (s : string) : list string :=
  match s with
  | EmptyString => [EmptyString]
  | String c r =>
      if Ascii.eqb c slash then EmptyString :: pieces r
      else match pieces r with
           | p :: ps => String c p :: ps
           | [] => [String c EmptyString]
           end
  end.

(** The root of [posixpath.splitroot]: exactly two leading slashes are
    kept, one or more than two make one. *)
Definition root_of (s : string) : string :=
  match s with
  | String a r =>
      if Ascii.eqb a slash then
        match r with
        | String b r' =>
            if Ascii.eqb b slash then
              match r' with
              | String c _ => if Ascii.eqb c slash then "/" else "//"
              | EmptyString => "//"
              end
            else "/"
        | EmptyString => "/"
        end
      else EmptyString
  | EmptyString => EmptyString
  end.

(** The components that are kept: neither empty nor a single dot. *)
Definition is_part (p : string) : bool :=
  truthy p && negb (String.eqb p ".").

Definition parse (s : string) : pure :=
  {| root := root_of s; parts := List.filter is_part (pieces s) |}.

(** [str(p)] *)
Definition render (x : pure) : string :=
  match root x, parts x with
  | EmptyString, [] => "."
  | r, ps => r +:+ String.concat "/" ps
  end.

(** [str(Path(s))] *)
Definition of_string (s : string) : string := render (parse s).

Fixpoint ends_with_slash (s : string) : bool :=
  match s with
  | EmptyString => false
  | String c EmptyString => Ascii.eqb c slash
  | String _ r => ends_with_slash r
  end.

(** [posixpath.join(a, b)] *)
Definition posix_join (a b : string) : string :=
  if startswith b "/" then b
  else if negb (truthy a) || ends_with_slash a then a +:+ b
  else a +:+ "/" +:+ b.

(** [d / n] *)
Definition join (d n : string) : string := of_string (posix_join d n).

(** [p.parent]: the path without its last component; a path without
    components is its own parent. *)
Definition parent (p : string) : string :=
  let x := parse p in
  render {| root := root x; parts := removelast (parts x) |}.

(** The non-empty prefixes of a list, shortest first. *)
Fixpoint inits {A} (l : list A) : list (list A) :=
  match l with
  | [] => []
  | x :: r => [x] :: List.map (cons x) (inits r)
  end.

(** The ancestors of [p] that have a component, from the outermost to [p]
    itself. *)
Definition lineage (p : string) : list string :=
  let x := parse p in
  List.map (fun ps => render {| root := root x; parts := ps |})
           (inits (parts x)).

(** [p.name]: the last component, or the empty string. *)
Definition name (p : string) : string := List.last (parts (parse p)) "".

(** The part of [s] from its last dot on. *)
Fixpoint from_last_dot (s : string) : option string :=
  match s with
  | EmptyString => None
  | String c r =>
      match from_last_dot r with
      | Some t => Some t
      | None => if Ascii.eqb c dot then Some s else None
      end
  end.

(** The suffix of a name: from its last dot, unless that dot is its first
    or its last character. *)
Definition name_suffix (n : string) : string :=
  match from_last_dot n with
  | Some t =>
      if ((String.length t <? String.length n)
          && (1 <? String.length t))%nat then t else EmptyString
  | None => EmptyString
  end.

(** [p.suffix] *)
Definition suffix (p : string) : string := name_suffix (name p).

(** The stem of a name: the name without its suffix. *)
Definition name_stem (n : string) : string :=
  substring 0 (String.length n - String.length (name_suffix n)) n.

(** [p.with_suffix(sfx)], for a suffix that starts with a dot, is longer
    than the dot and holds no slash: a path without a name is refused. *)
Definition with_suffix (p sfx : string) : result string :=
  let x := parse p in
  let n := List.last (parts x) "" in
  if truthy n then
    Ok (render {| root := root x;
                  parts := removelast (parts x) ++ [name_stem n +:+ sfx] |})
  else Raise (ValueError "path has an empty name").

End Path.

Module PyInt.
Import PyStr.

Definition digit_value (c : ascii) : Z := Z.of_nat (nat_of_ascii c) - 48.

(** Decimal digits, with single underscores between digits. *)
Fixpoint digits (s : string) (acc : Z) (after_digit : bool) : option Z :=
  match s with
  | EmptyString => if after_digit then Some acc else None
  | String c r =>
      if Re.is_digit c then digits r (10 * acc + digit_value c)%Z true
      else if Ascii.eqb c "_"%char && after_digit then digits r acc false
      else None
  end.

(** The white space [int] skips around the number: the six ASCII
    characters of C's [isspace], and, of the characters from 128 to 255,
    the two that are white space in Unicode (next line and no-break
    space). The separators 28 to 31, which [str.strip] removes, are not
    among them. *)
Definition is_padding (c : ascii) : bool :=
  let n := nat_of_ascii c in
  ((9 <=? n) && (n <=? 13) || (n =? 32) || (n =? 133) || (n =? 160))%nat.

Definition skip_padding (s : string) : string :=
  drop_while is_padding s.

Fixpoint drop_padding_end (s : string) : string :=
  match s with
  | EmptyString => EmptyString
  | String c r =>
      match drop_padding_end r with
      | EmptyString => if is_padding c then EmptyString else String c EmptyString
      | r' => String c r'
      end
  end.

(** The number of decimal digits of [s]. *)
Definition digit_count (s : string) : Z :=
  Z.of_nat (String.length (remove_char "_"%char s)).

(** The default of [sys.get_int_max_str_digits()]. *)
Definition max_str_digits : Z := 4300.

(** The number after the sign: refused when it has more digits than the
    limit. *)
Definition unsigned (s : string) : option Z :=
  match digits s 0%Z false with
  | Some n => if (max_str_digits <? digit_count s)%Z then None else Some n
  | None => None
  end.

(** [int(s)] for a string [s]: [None] stands for [ValueError]. *)
Definition int (s : string) : option Z :=
  match drop_padding_end (skip_padding s) with
  | String c r =>
      if Ascii.eqb c "-"%char then option_map Z.opp (unsigned r)
      else if Ascii.eqb c "+"%char then unsigned r
      else unsigned (String c r)
  | EmptyString => None
  end.

End PyInt.

Module PyBytes.

Definition hex_digit (n : N) : ascii :=
  match String.get (N.to_nat n) "0123456789abcdef" with
  | Some c => c
  | None => "0"%char
  end.

Definition byte_hex (b : byte) : string :=
  let n := Byte.to_N b in
  String (hex_digit (n / 16)) (String (hex_digit (n mod 16)) EmptyString).

(** [b.hex()] *)
Fixpoint hex (bs : list byte) : string :=
  match bs with
  | [] => EmptyString
  | b :: r => byte_hex b +:+ hex r
  end.

End PyBytes.

(** ** The world outside the repository *)

(** The files of the file system, by path, with their contents. *)
Abbreviation FS := (gmap string (list byte)).

(** A key of a parsed license: [key.type], [key.kid.hex], [key.key]. *)
Record Key : Type := {
  type : string;
  kid : string;
  key : list byte
}.

(** What [subprocess.run(..., capture_output=True, text=True)] returns. *)
Record CompletedProcess : Type := {
  returncode : Z;
  proc_stderr : string
}.

(** The dictionary returned by the metadata extraction. *)
Record SongInfo : Type := {
  id : string;
  title : string;
  artist : string;
  song_path : string
}.

Record Env : Type := {
  (** [SESSION.get(url, headers=...)] and [SESSION.post(url, data=...,
      headers=...)]: a response, or a transport failure. *)
  http_get : string -> list (string * string) -> io Response;
  http_post : string -> list byte -> list (string * string) -> io Response;
  (** [subprocess.run(argv)]: the program sees and may change the file
      system; [Failed] when it cannot be started. *)
  run_process : list string -> FS -> io (CompletedProcess * FS);
  (** The path [tempfile.NamedTemporaryFile(suffix=...)] chooses. *)
  temp_name : FS -> string -> string;
  (** pywidevine: [Device.load] (on the bytes of the device file),
      [Cdm.from_device], [cdm.open], [PSSH(...)],
      [cdm.get_license_challenge], and [cdm.parse_license] with the keys
      that [cdm.get_keys] lists afterwards. *)
  Device_load : list byte -> io (list byte);
  Cdm_from_device : list byte -> io unit;
  cdm_open : io (list byte);
  PSSH_new : string -> io string;
  cdm_get_license_challenge : list byte -> string -> io (list byte);
  cdm_parse_license : list byte -> list byte -> io (list Key);
  (** The metadata extraction of lines 51-124 (regular-expression
      heuristics over the page text), taken as given. *)
  extract_suno_info : string -> string -> SongInfo;
  extract_song_info : string -> result SongInfo;
  (** The process environment. *)
  os_environ : string -> option string;
  sys_platform : string;
  Path_home : string;
  (** The order in which the operating system lists the entries of a
      directory. *)
  iterdir_order : list string -> list string
}.

(** The calls made to the key system, as a test double records them. *)
Inductive CdmCall : Type :=
| COpen (session_id : list byte)
| CChallenge (session_id : list byte)
| CParse (session_id : list byte)
| CGetKeys (session_id : list byte)
| CClose (session_id : list byte).

(** The mutable world: files, key-system calls made, subprocesses run (by
    their argument vector), both in the order of the calls, and the
    directories, by path. Paths are told apart as strings: double dots
    and links are not resolved. Messages printed to the standard error
    stream, the progress bars, and permissions are not modelled. *)
Record State : Type := {
  fs : FS;
  cdm_calls : list CdmCall;
  procs : list (list string);
  dirs : gset string
}.

Definition set_fs (f : FS) (s : State) : State :=
  {| fs := f; cdm_calls := cdm_calls s; procs := procs s; dirs := dirs s |}.
Definition log_cdm (c : CdmCall) (s : State) : State :=
  {| fs := fs s; cdm_calls := cdm_calls s ++ [c]; procs := procs s;
     dirs := dirs s |}.
Definition log_proc (argv : list string) (s : State) : State :=
  {| fs := fs s; cdm_calls := cdm_calls s; procs := procs s ++ [argv];
     dirs := dirs s |}.
Definition add_dir (d : string) (s : State) : State :=
  {| fs := fs s; cdm_calls := cdm_calls s; procs := procs s;
     dirs := union (singleton d) (dirs s) |}.

(** [p.is_file()] *)
Definition is_file (s : State) (p : string) : bool :=
  bool_decide (is_Some (fs s !! p)).

(** [p.is_dir()]: a path made of no component, or of double dots only,
    names a directory that is always there (the current directory, the
    root, or one above); any other is a directory when the state has
    it. *)
Definition is_dir (s : State) (p : string) : bool :=
  forallb (String.eqb "..") (Path.parts (Path.parse p))
  || bool_decide (elem_of p (dirs s)).

(** [p.exists()] *)
Definition path_exists (s : State) (p : string) : bool :=
  is_file s p || is_dir s p.

(** The entries of the directory [d]: the files and directories of the
    state directly under it. *)
Definition children (s : State) (d : string) : list string :=
  List.filter
    (fun p => String.eqb (Path.of_string p) p
              && String.eqb (Path.parent p) d
              && negb (String.eqb p d))
    (elements (union (dom (fs s)) (dirs s))).

(** ** The state and exception monad *)

Definition M (A : Type) : Type := State -> result A * State.

Definition ret {A} (a : A) : M A := fun s => (Ok a, s).
Definition raise {A} (e : exn) : M A := fun s => (Raise e, s).
Definition bind {A B} (m : M A) (k : A -> M B) : M B :=
  fun s => match m s with
           | (Ok a, s') => k a s'
           | (Raise e, s') => (Raise e, s')
           end.

Declare Scope py_scope.
Delimit Scope py_scope with py.
Notation "x <- m ;; k" := (bind m (fun x => k))
  (at level 100, m at next level, right associativity) : py_scope.
Notation "m ;; k" := (bind m (fun _ => k))
  (at level 100, right associativity) : py_scope.
Local Open Scope py_scope.

Definition modify (f : State -> State) : M unit := fun s => (Ok tt, f s).
Definition gets {A} (f : State -> A) : M A := fun s => (Ok (f s), s).
Definition lift_result {A} (r : result A) : M A := fun s => (r, s).

(** [sys.exit(code)] *)
Definition sys_exit {A} (code : Z) : M A := raise (SystemExit code).

(** [try: body finally: fin] *)
Definition try_finally {A} (body : M A) (fin : M unit) : M A :=
  fun s => match body s with
           | (r, s') =>
               match fin s' with
               | (Ok _, s'') => (r, s'')
               | (Raise e, s'') => (Raise e, s'')
               end
           end.

(** [try: body except Exception as e: handler(e)] *)
Definition try_except {A} (body : M A) (handler : exn -> M A) : M A :=
  fun s => match body s with
           | (Ok a, s') => (Ok a, s')
           | (Raise e, s') =>
               if is_Exception e then handler e s' else (Raise e, s')
           end.

(** [for x in l: body(x)] *)
Fixpoint for_each {A} (l : list A) (body : A -> M unit) : M unit :=
  match l with
  | [] => ret tt
  | x :: rest => body x ;; for_each rest body
  end.

(** *** The collaborators, as monadic operations *)

Section Operations.
Variable env : Env.

Definition SESSION_get (url : string) (headers : list (string * string))
    : M Response :=
  match http_get env url headers with
  | Done r => ret r
  | Failed why => raise (RequestException why)
  end.

Definition SESSION_post (url : string) (data : list byte)
    (headers : list (string * string)) : M Response :=
  match http_post env url data headers with
  | Done r => ret r
  | Failed why => raise (RequestException why)
  end.

Definition lift_cdm {A} (r : io A) : M A :=
  match r with
  | Done a => ret a
  | Failed why => raise (CdmError why)
  end.

(** The file at [path] is created, or truncated. *)
Definition file_create (path : string) : M unit :=
  modify (fun s => set_fs (<[path := []]> (fs s)) s).

(** [open(path, "wb")]: refused when [path] is a directory, or is not in
    a directory; else the file is created or truncated. *)
Definition open_wb (path : string) : M unit :=
  d <- gets (fun s => is_dir s path) ;;
  if d then raise (OSError "Is a directory")
  else
    inside <- gets (fun s => is_dir s (Path.parent path)) ;;
    if inside then file_create path
    else raise (OSError "No such file or directory").

(** [f.write(data)]: the data are appended. *)
Definition file_write (path : string) (data : list byte) : M unit :=
  modify (fun s => set_fs (<[path := default [] (fs s !! path) ++ data]> (fs s)) s).

(** [path.unlink(missing_ok=True)] *)
Definition unlink (path : string) : M unit :=
  modify (fun s => set_fs (delete path (fs s)) s).

(** [part.rename(dest)], for a file: it replaces a file at [dest], and is
    refused when [dest] is a directory or is not in a directory. *)
Definition rename (src dst : string) : M unit :=
  fun s => match fs s !! src with
           | Some data =>
               if is_dir s dst then (Raise (OSError "Is a directory"), s)
               else if is_dir s (Path.parent dst)
               then (Ok tt, set_fs (<[dst := data]> (delete src (fs s))) s)
               else (Raise (OSError "No such file or directory"), s)
           | None => (Raise (OSError "No such file or directory"), s)
           end.

(** [p.mkdir(parents=True, exist_ok=True)], along the lineage of [p]: a
    directory that is there is passed, a missing one is made, and a file
    in the way ends the call, as [NotADirectoryError] for an ancestor and
    [FileExistsError] for [p] itself. *)
Fixpoint mkdir_chain (ds : list string) : M unit :=
  match ds with
  | [] => ret tt
  | d :: rest =>
      there <- gets (fun s => is_dir s d) ;;
      if there then mkdir_chain rest
      else
        blocked <- gets (fun s => is_file s d) ;;
        if blocked
        then raise (OSError match rest with
                            | [] => "File exists"
                            | _ :: _ => "Not a directory"
                            end)
        else modify (add_dir d) ;; mkdir_chain rest
  end.

Definition mkdir_parents (p : string) : M unit :=
  mkdir_chain (Path.lineage p).

(** [list(p.iterdir())], for a directory [p]. *)
Definition iterdir (p : string) : M (list string) :=
  gets (fun s => iterdir_order env (children s p)).

(** [tempfile.NamedTemporaryFile(suffix=..., delete=False)]: a new empty
    file, which leaving the [with] block closes but does not remove. *)
Definition NamedTemporaryFile (suffix : string) : M string :=
  path <- gets (fun s => temp_name env (fs s) suffix) ;;
  file_create path ;;
  ret path.

(** [subprocess.run(argv, capture_output=True, text=True)] *)
Definition subprocess_run (argv : list string) : M CompletedProcess :=
  fun s =>
    let s1 := log_proc argv s in
    match run_process env argv (fs s1) with
    | Done (cp, fs') => (Ok cp, set_fs fs' s1)
    | Failed why => (Raise (OSError why), s1)
    end.

End Operations.

(** ** The program *)

Section Program.
Import PyStr.
Variable env : Env.

(** [detect_platform] *)
Definition detect_platform (url : string) : string :=
  if contains url "suno.com" then "suno" else "other".

(** [fetch_page] *)
Definition fetch_page (url : string) : M string :=
  resp <- SESSION_get env url [] ;;
  lift_result (raise_for_status resp) ;;
  ret (text resp).

(** The character class of [safe_filename]: the characters Windows forbids
    in file names, and the control characters 0..31. *)
Definition unsafe_char (c : ascii) : bool :=
  char_in c ("<>:" +:+ String dquote "/\|?*") || (nat_of_ascii c <=? 31)%nat.

(** [safe_filename] *)
Definition safe_filename (artist title ext : string) : string :=
  map_chars (fun c => if unsafe_char c then "_"%char else c)
            (artist +:+ " - " +:+ title +:+ "." +:+ ext).

(** [try_download_mp3]. [total] only feeds the progress bar, but
    computing it can raise. Leaving the [with] block closes the part file
    with the chunks written so far, also when the stream fails. *)
Definition try_download_mp3 (song_path dest : string) : M bool :=
  resp <- SESSION_get env song_path [] ;;
  if ((status_code resp =? 403) || (status_code resp =? 404))%Z then ret false
  else
    lift_result (raise_for_status resp) ;;
    total <- match content_length resp with
             | None => ret None
             | Some h =>
                 match PyInt.int h with
                 | Some n => ret (if (n =? 0)%Z then None else Some n)
                 | None => raise (ValueError "invalid literal for int()")
                 end
             end ;;
    part <- lift_result (Path.with_suffix dest ".mp3.part") ;;
    open_wb part ;;
    for_each (fst (iter_content resp)) (file_write part) ;;
    match snd (iter_content resp) with
    | Some why => raise (RequestException why)
    | None => ret tt
    end ;;
    rename part dest ;;
    ret true.

(** [fetch_stream_segments]: the request, then [parse_manifest]. *)
Definition fetch_stream_segments (song_id : string) : M StreamManifest :=
  resp <- SESSION_get env (manifest_url song_id) origin_header ;;
  lift_result (raise_for_status resp) ;;
  lift_result (parse_manifest song_id (text resp)).

Definition LICENSE_URL : string :=
  "https://stream.udio.com/drm/license?type=widevine".

(** [_config_dir]. On win32 the path is built with the POSIX flavour
    too. *)
Definition _config_dir : string :=
  if String.eqb (sys_platform env) "win32"
  then Path.join (default (Path_home env) (os_environ env "APPDATA")) "music-dl"
  else Path.join (Path.join (Path_home env) ".config") "music-dl".

(** [p.exists()] *)
Definition exists_path (p : string) : M bool :=
  gets (fun s => path_exists s p).

(** [find_wvd_device] *)
Definition find_wvd_device : M (option string) :=
  from_env <-
    match os_environ env "MUSIC_DL_CDM" with
    | Some v =>
        if truthy v
        then let p := Path.of_string v in
             (e <- exists_path p ;; ret (if e then Some p else None))
        else ret None
    | None => ret None
    end ;;
  match from_env with
  | Some p => ret (Some p)
  | None =>
      let config_dir := _config_dir in
      let wvd := Path.join config_dir "device.wvd" in
      e <- exists_path wvd ;;
      if e then ret (Some wvd)
      else
        d <- gets (fun s => is_dir s config_dir) ;;
        if d then
          entries <- iterdir env config_dir ;;
          ret (List.find (fun f => String.eqb (Path.suffix f) ".wvd") entries)
        else ret None
  end.

(** The key-system calls, recorded in [cdm_calls]. *)
Definition cdm_open_session : M (list byte) :=
  session_id <- lift_cdm (cdm_open env) ;;
  modify (log_cdm (COpen session_id)) ;;
  ret session_id.

Definition get_license_challenge (session_id : list byte) (pssh : string)
    : M (list byte) :=
  modify (log_cdm (CChallenge session_id)) ;;
  lift_cdm (cdm_get_license_challenge env session_id pssh).

Definition parse_license (session_id license : list byte) : M (list Key) :=
  modify (log_cdm (CParse session_id)) ;;
  lift_cdm (cdm_parse_license env session_id license).

Definition cdm_close (session_id : list byte) : M unit :=
  modify (log_cdm (CClose session_id)).

(** The loop of [obtain_content_key] (lines 264-272). [inl key_hex] is the
    [return key_hex] inside the loop, after its [cdm.close]; [inr
    content_key] is the loop running to its end. *)
Fixpoint key_loop (session_id : list byte) (key_id : string)
    (keys : list Key) (content_key : option string)
    : M (string + option string) :=
  match keys with
  | [] => ret (inr content_key)
  | k :: rest =>
      if String.eqb (type k) "CONTENT" then
        let kid_hex := kid k in
        let key_hex := PyBytes.hex (key k) in
        if String.eqb kid_hex key_id then
          cdm_close session_id ;; ret (inl key_hex)
        else
          key_loop session_id key_id rest
            (match content_key with
             | None => Some key_hex
             | Some _ => content_key
             end)
      else key_loop session_id key_id rest content_key
  end.

(** [obtain_content_key] *)
Definition obtain_content_key (cdm_path pssh_b64 key_id : string) : M string :=
  file <- gets (fun s => fs s !! cdm_path) ;;
  device <- match file with
            | Some data => lift_cdm (Device_load env data)
            | None => raise (OSError "No such file or directory")
            end ;;
  lift_cdm (Cdm_from_device env device) ;;
  session_id <- cdm_open_session ;;
  pssh <- lift_cdm (PSSH_new env pssh_b64) ;;
  challenge <- get_license_challenge session_id pssh ;;
  resp <- SESSION_post env LICENSE_URL challenge origin_header ;;
  lift_result (raise_for_status resp) ;;
  keys <- parse_license session_id (content resp) ;;
  modify (log_cdm (CGetKeys session_id)) ;;
  out <- key_loop session_id key_id keys None ;;
  match out with
  | inl key_hex => ret key_hex
  | inr content_key =>
      cdm_close session_id ;;
      match content_key with
      | Some key_hex =>
          if truthy key_hex then ret key_hex
          else raise (RuntimeError "No content key found in license response")
      | None => raise (RuntimeError "No content key found in license response")
      end
  end.

(** The key check of [download_drm_stream] (lines 286-288): the normalised
    key, or the [ValueError]. *)
Definition normalise_key (key_hex : string) : result string :=
  let key_hex := lower (strip key_hex) in
  if negb (String.length key_hex =? 32)%nat
     || negb (all_chars (fun c => char_in c "0123456789abcdef") key_hex)
  then Raise (ValueError "Decryption key must be exactly 32 hex characters")
  else Ok key_hex.

(** The [with] block of [download_drm_stream] (lines 296-311): the
    temporary file is created, then the init segment and the media segments
    are appended to it. Returns [enc_path]. [append_segment] is the body of
    the loop over the media segments (lines 308-311). *)
Definition append_segment (enc_path seg_name : string) : M unit :=
  let seg_url := resolve_stream_uri seg_name in
  resp <- SESSION_get env seg_url origin_header ;;
  lift_result (raise_for_status resp) ;;
  file_write enc_path (content resp).

Definition assemble_segments (segs : StreamManifest) : M string :=
  enc_path <- NamedTemporaryFile env ".enc.m4a" ;;
  let init_url := resolve_stream_uri (init_uri segs) in
  init_resp <- SESSION_get env init_url origin_header ;;
  file_write enc_path (content init_resp) ;;
  for_each (segment_uris segs) (append_segment enc_path) ;;
  ret enc_path.

Definition ffmpeg_argv (key_hex enc_path dest : string) : list string :=
  ["ffmpeg"; "-y"; "-loglevel"; "error"; "-decryption_key"; key_hex;
   "-i"; enc_path; "-c"; "copy"; dest].

(** The [try ... finally] of [download_drm_stream] (lines 313-332). *)
Definition decrypt_and_cleanup (key_hex enc_path dest : string) : M unit :=
  try_finally
    (result <- subprocess_run env (ffmpeg_argv key_hex enc_path dest) ;;
     if negb (returncode result =? 0)%Z
     then raise (RuntimeError ("ffmpeg decryption failed: " +:+ proc_stderr result))
     else ret tt)
    (unlink enc_path).

(** [download_drm_stream] *)
Definition download_drm_stream (song_id key_hex dest : string) : M unit :=
  key_hex <- lift_result (normalise_key key_hex) ;;
  segs <- fetch_stream_segments song_id ;;
  enc_path <- assemble_segments segs ;;
  decrypt_and_cleanup key_hex enc_path dest.

(** The command line: [args.url], [args.output], [args.cdm], [args.key]. *)
Record Args : Type := {
  args_url : string;
  args_output : string;
  args_cdm : option string;
  args_key : option string
}.

(** Truthiness of an optional command-line string. *)
Definition given (o : option string) : option string :=
  match o with
  | Some v => if truthy v then Some v else None
  | None => None
  end.

(** Lines 372-375 of [main]. *)
Definition song_metadata (platform html url : string) : result SongInfo :=
  if String.eqb platform "suno" then Ok (extract_suno_info env html url)
  else extract_song_info env html.

(** The [try ... except Exception] of [main] (lines 385-391): [true] when
    the direct download succeeded and [main] returns there. *)
Definition direct_attempt (info : SongInfo) (mp3_dest : string) : M bool :=
  try_except (try_download_mp3 (song_path info) mp3_dest)
             (fun _ => ret false).

(** Lines 403-440 of [main]: the decryption key. *)
Definition determine_key (args : Args) (song_id : string) : M string :=
  match given (args_key args) with
  | Some key_hex => ret key_hex
  | None =>
      segs <- fetch_stream_segments song_id ;;
      cdm_path <- match given (args_cdm args) with
                  | Some p => ret (Some (Path.of_string p))
                  | None => find_wvd_device
                  end ;;
      match cdm_path with
      | Some cdm_path =>
          e <- exists_path cdm_path ;;
          if negb e then sys_exit 1
          else
            match given (pssh_b64 segs) with
            | None => sys_exit 1
            | Some pssh => obtain_content_key cdm_path pssh (key_id segs)
            end
      | None => sys_exit 1
      end
  end.

(** [output_dir] of [main] (line 364). *)
Definition output_dir (args : Args) : string :=
  Path.of_string (args_output args).

(** Lines 397-447 of [main]: the fall-back to the DRM stream. *)
Definition drm_fallback (args : Args) (info : SongInfo) : M unit :=
  let song_id := id info in
  if negb (truthy song_id) || String.eqb song_id "Unknown" then sys_exit 1
  else
    key_hex <- determine_key args song_id ;;
    let m4a_name := safe_filename (artist info) (title info) "m4a" in
    let m4a_dest := Path.join (output_dir args) m4a_name in
    download_drm_stream song_id key_hex m4a_dest.

(** [main], after the parsing of the command line. *)
Definition main (args : Args) : M unit :=
  mkdir_parents (output_dir args) ;;
  let platform := detect_platform (args_url args) in
  html <- fetch_page (args_url args) ;;
  info <- lift_result (song_metadata platform html (args_url args)) ;;
  let mp3_name := safe_filename (artist info) (title info) "mp3" in
  let mp3_dest := Path.join (output_dir args) mp3_name in
  finished <- direct_attempt info mp3_dest ;;
  if finished then ret tt
  else if String.eqb platform "suno" then sys_exit 1
  else drm_fallback args info.

End Program.

(** ** The installation of the device credential ([setup_cdm.py])

    Of the set-up script, which drives an Android emulator through
    subprocesses, only the last step touches what the downloader reads: the
    copy of the extracted device file to the configuration directory. *)

Section Setup.
Variable env : Env.




End Setup.

(** * The vocabulary of the specification *)

Section Vocabulary.
Import PyStr.

(** ** Lines of a manifest *)

(** A segment-duration announcement: a line that starts, once stripped,
    with the EXTINF tag. *)
Definition is_announcement (line : string) : bool :=
  startswith (strip line) "#EXTINF:".

(** A URI line: not blank and not a comment, once stripped. *)
Definition is_uri_line (line : string) : bool :=
  truthy (strip line) && negb (startswith (strip line) "#").

(** A comment or blank line that announces nothing. *)
Definition is_metadata (line : string) : bool :=
  negb (is_announcement line) && negb (is_uri_line line).

(** An announcement, the comment and blank lines that may follow it, the
    URI line it announces, and the comment and blank lines after that. *)
Record segment_block : Type := {
  announcement : string;
  interleaved : list string;
  uri_line : string;
  trailing : list string
}.

Definition block_lines (b : segment_block) : list string :=
  announcement b :: interleaved b ++ uri_line b :: trailing b.

Definition well_formed_block (b : segment_block) : Prop :=
  is_announcement (announcement b) = true
  /\ Forall (fun l => is_metadata l = true) (interleaved b)
  /\ is_uri_line (uri_line b) = true
  /\ Forall (fun l => is_metadata l = true) (trailing b).

(** ** Errors *)

(** The manifest error. *)
Definition no_segments : exn :=
  RuntimeError "No media segments found in HLS manifest".

(** The no-content-key error. *)
Definition no_content_key : exn :=
  RuntimeError "No content key found in license response".

(** ** Key negotiation *)

(** The keys of a license that are tagged as content keys. *)
Definition is_content (k : Key) : bool := String.eqb (type k) "CONTENT".

Definition content_keys (keys : list Key) : list Key :=
  List.filter is_content keys.



(** The number of session closures among the calls made to the key system. *)
Definition is_close (c : CdmCall) : bool :=
  match c with CClose _ => true | _ => false end.

Definition close_count (calls : list CdmCall) : nat :=
  length (List.filter is_close calls).

(** The negotiation started in state [st] gets as far as a parsed license
    with the keys [keys]: the device loads, the session opens, the
    challenge is built, the license endpoint answers with a success status
    and the answer parses. *)
Definition license_yields (env : Env) (st : State)
    (cdm_path pssh_b64 : string) (keys : list Key) : Prop :=
  exists data device session_id pssh challenge resp,
    fs st !! cdm_path = Some data
    /\ Device_load env data = Done device
    /\ Cdm_from_device env device = Done tt
    /\ cdm_open env = Done session_id
    /\ PSSH_new env pssh_b64 = Done pssh
    /\ cdm_get_license_challenge env session_id pssh = Done challenge
    /\ http_post env LICENSE_URL challenge origin_header = Done resp
    /\ raise_for_status resp = Ok tt
    /\ cdm_parse_license env session_id (content resp) = Done keys.

(** ** The decryption key *)

(** Exactly 32 hexadecimal characters, lower or upper case. *)
Definition is_hex_key (s : string) : bool :=
  (String.length s =? 32)%nat && all_chars Re.hex_class s.

(** The invalid-key-format error. *)
Definition invalid_key : exn :=
  ValueError "Decryption key must be exactly 32 hex characters".

Definition is_ValueError (e : exn) : bool :=
  match e with ValueError _ => true | _ => false end.

Definition no_ValueError (e : exn) : Prop := is_ValueError e = false.

(** ** Segments *)

(** The streaming origin serves the segment [uri] with a success status
    and the body [body]. *)
Definition served (env : Env) (uri : string) (body : list byte) : Prop :=
  exists resp,
    http_get env (resolve_stream_uri uri) origin_header = Done resp
    /\ raise_for_status resp = Ok tt
    /\ content resp = body.

(** ** The direct attempt *)

(** The page is fetched and the metadata extraction gives [info]. *)
Definition page_resolved (env : Env) (args : Args) (info : SongInfo) : Prop :=
  exists page,
    http_get env (args_url args) [] = Done page
    /\ raise_for_status page = Ok tt
    /\ song_metadata env (detect_platform (args_url args)) (text page)
                      (args_url args) = Ok info.

(** The direct source answers with status 403 or 404. *)
Definition direct_refused (env : Env) (info : SongInfo) : Prop :=
  exists resp,
    http_get env (song_path info) [] = Done resp
    /\ (status_code resp = 403 \/ status_code resp = 404)%Z.

(** The fetch of the direct source fails at the transport level. *)
Definition direct_unreachable (env : Env) (info : SongInfo) : Prop :=
  exists why, http_get env (song_path info) [] = Failed why.

(** The fetch of the media segment [uri] fails with [e]: the origin answers
    with an error status, or cannot be reached. *)
Definition refused (env : Env) (uri : string) (e : exn) : Prop :=
  (exists resp,
      http_get env (resolve_stream_uri uri) origin_header = Done resp
      /\ raise_for_status resp = Raise e)
  \/ (exists why,
        http_get env (resolve_stream_uri uri) origin_header = Failed why
        /\ e = RequestException why).

(** ** Frames of a computation *)

(** The computation [m] keeps the relation [R] between the state it starts
    in and the state it ends in, and raises only exceptions in [E]. *)
Definition obeys {A} (R : State -> State -> Prop) (E : exn -> Prop)
    (m : M A) : Prop :=
  forall st, R st (snd (m st)) /\ forall e, fst (m st) = Raise e -> E e.

(** No subprocess is run and the key system is not called. *)
Definition quiet (st st' : State) : Prop :=
  procs st' = procs st /\ cdm_calls st' = cdm_calls st.

(** Nothing changes. *)
Definition untouched (st st' : State) : Prop := st' = st.

(** ** More frames *)

(** The key system is not called. *)
Definition same_cdm (st st' : State) : Prop := cdm_calls st' = cdm_calls st.

(** Any exception. *)
Definition any_exn (e : exn) : Prop := True.

(** An exception that [except Exception] catches. *)
Definition caught (e : exn) : Prop := is_Exception e = true.

(** No exception at all. *)
Definition no_exn (e : exn) : Prop := False.

(** ** Characters *)

(** A lower-case hexadecimal digit. *)
Definition is_lower_hex (c : ascii) : bool := char_in c "0123456789abcdef".

(** ** The direct source *)

(** A response whose body [try_download_mp3] streams: neither 403 nor
    404, no error status, and a Content-Length header, if any, that [int]
    reads. *)
Definition downloadable (resp : Response) : Prop :=
  status_code resp <> 403%Z /\ status_code resp <> 404%Z
  /\ raise_for_status resp = Ok tt
  /\ (forall h, content_length resp = Some h -> PyInt.int h <> None).

(** The place of a download: [dest] has a name, is in a directory, and
    neither it nor its part file [part] is a directory. *)
Definition writable (st : State) (dest part : string) : Prop :=
  Path.with_suffix dest ".mp3.part" = Ok part
  /\ is_dir st (Path.parent part) = true
  /\ is_dir st part = false
  /\ is_dir st (Path.parent dest) = true
  /\ is_dir st dest = false.

(** A response that [try_download_mp3] does not save: 403, 404, or an
    error status. *)
Definition not_downloadable (resp : Response) : Prop :=
  (400 <= status_code resp < 600)%Z.

(** ** Paths *)

(** A name that [pathlib] keeps as one component: not empty, not a single
    dot, and without a slash. *)
Definition simple_name (n : string) : bool :=
  Path.is_part n && negb (char_in Path.slash n).

(** A parsed path in normal form. *)
Definition normal (x : Path.pure) : Prop :=
  (Path.root x = "" \/ Path.root x = "/" \/ Path.root x = "//")
  /\ Forall (fun p => simple_name p = true) (Path.parts x).

(** The path [p] with the name [n] added as its last component. *)
Definition child (p : Path.pure) (n : string) : Path.pure :=
  {| Path.root := Path.root p; Path.parts := Path.parts p ++ [n] |}.

(** ** The device credential *)

(** The override variable MUSIC_DL_CDM is not set, is empty, or names
    neither a file nor a directory. *)
Definition no_override (env : Env) (st : State) : Prop :=
  forall v, os_environ env "MUSIC_DL_CDM" = Some v ->
            truthy v = true -> path_exists st (Path.of_string v) = false.

(** The entries of the configuration directory, as [find_wvd_device] goes
    through them: none when it is not a directory. *)
Definition config_entries (env : Env) (st : State) : list string :=
  if is_dir st (_config_dir env)
  then iterdir_order env (children st (_config_dir env))
  else [].

(** [find_wvd_device] finds nothing: the override names nothing, the
    configuration directory holds no [device.wvd], and none of its entries
    has the suffix [.wvd]. *)
Definition no_device (env : Env) (st : State) : Prop :=
  no_override env st
  /\ path_exists st (Path.join (_config_dir env) "device.wvd") = false
  /\ Forall (fun f => Path.suffix f <> ".wvd") (config_entries env st).

End Vocabulary.

(** * Test doubles

    Concrete environments on which the program is run: a small streaming
    origin with one protected track, a fake key system, and a fake
    decryption program. *)

Module Double.
Import PyStr.

Definition nl : string := String (ascii_of_nat 10) EmptyString.
Definition q : string := String dquote EmptyString.

Definition bytes (s : string) : list byte := list_byte_of_string s.

Definition response (status : Z) (body : string) : Response :=
  {| status_code := status; content_length := None;
     text := body; content := bytes body;
     iter_content := ([bytes body], None) |}.

Definition song_id : string := "ab12-cd34".
Definition page_url : string := "https://www.udio.com/songs/ab12-cd34".
Definition suno_url : string := "https://suno.com/song/ab12-cd34".
Definition mp3_url : string := "https://cdn.example.com/ab12-cd34.mp3".
Definition manifest_key_id : string := "bbbbbbbbbbbbbbbbbbbbbbbbbbbbbbbb".
Definition other_key_id : string := "aaaaaaaaaaaaaaaaaaaaaaaaaaaaaaaa".

Definition info : SongInfo :=
  {| id := song_id; title := "Song"; artist := "Band"; song_path := mp3_url |}.

(** A manifest with two announced segments, the first after a comment and
    a blank line. *)
Definition manifest_lines : list string :=
  [ "#EXTM3U";
    "#EXT-X-KEY:METHOD=SAMPLE-AES,URI=" +:+ q
      +:+ "data:text/plain;base64,AAAAOHBzc2g=" +:+ q
      +:+ ",KEYID=0xBBBBBBBBBBBBBBBBBBBBBBBBBBBBBBBB";
    "#EXT-X-MAP:URI=" +:+ q +:+ "init.mp4" +:+ q;
    "#EXTINF:4.0,";
    "#EXT-X-BITRATE:128";
    "";
    "  seg0.m4s  ";
    "#EXTINF:4.0,";
    "/media/seg1.m4s";
    "#EXT-X-ENDLIST" ].

Definition manifest : string := String.concat nl manifest_lines.

(** A manifest that announces nothing. *)
Definition empty_manifest : string :=
  String.concat nl ["#EXTM3U"; "seg0.m4s"; "#EXT-X-ENDLIST"].

(** The fake decryption program: it exits with [rc], having written its
    output file (the last argument) when [rc] is 0. *)
Definition engine (rc : Z) (argv : list string) (files : FS)
    : io (CompletedProcess * FS) :=
  if (rc =? 0)%Z
  then Done ({| returncode := 0; proc_stderr := "" |},
             <[List.last argv "" := bytes "DECRYPTED"]> files)
  else Done ({| returncode := rc; proc_stderr := "Invalid data" |}, files).

Definition session : list byte := bytes "S1".

Definition content_key (k v : string) : Key :=
  {| type := "CONTENT"; kid := k; key := bytes v |}.
Definition signing_key (k v : string) : Key :=
  {| type := "SIGNING"; kid := k; key := bytes v |}.

(** The environment: what the direct source, the manifest endpoint, the
    init segment, the two media segments and the license endpoint answer,
    the keys of the license, and the exit status of the engine. *)
Definition world (direct manifest_r init seg0 seg1 license : io Response)
    (keys : list Key) (rc : Z) : Env :=
  {| http_get := fun url _ =>
       if String.eqb url page_url then Done (response 200 "<html>")
       else if String.eqb url suno_url then Done (response 200 "<html>")
       else if String.eqb url mp3_url then direct
       else if String.eqb url (manifest_url song_id) then manifest_r
       else if String.eqb url "https://stream.udio.com/init.mp4" then init
       else if String.eqb url "https://stream.udio.com/seg0.m4s" then seg0
       else if String.eqb url "https://stream.udio.com/media/seg1.m4s" then seg1
       else Failed "Name or service not known";
     http_post := fun _ _ _ => license;
     run_process := engine rc;
     temp_name := fun _ suffix => "/tmp/tmp0" +:+ suffix;
     Device_load := fun data => Done data;
     Cdm_from_device := fun _ => Done tt;
     cdm_open := Done session;
     PSSH_new := fun b64 => Done b64;
     cdm_get_license_challenge := fun _ _ => Done (bytes "CHALLENGE");
     cdm_parse_license := fun _ _ => Done keys;
     extract_suno_info := fun _ _ => info;
     extract_song_info := fun _ => Ok info;
     os_environ := fun _ => None;
     sys_platform := "linux";
     Path_home := "/home/user";
     iterdir_order := fun entries => entries |}.

Definition ok_manifest : io Response := Done (response 200 manifest).
Definition ok_init : io Response := Done (response 200 "INIT").
Definition ok_seg0 : io Response := Done (response 200 "SEG0").
Definition ok_seg1 : io Response := Done (response 200 "SEG1").
Definition ok_license : io Response := Done (response 200 "LICENSE").
Definition not_found : io Response := Done (response 404 "Not Found").
Definition server_error : io Response := Done (response 500 "Oops").
Definition unreachable : io Response := Failed "Connection refused".

Definition two_keys : list Key :=
  [ signing_key manifest_key_id "SSSSSSSSSSSSSSSS";
    content_key other_key_id "AAAAAAAAAAAAAAAA";
    content_key manifest_key_id "BBBBBBBBBBBBBBBB" ].

(** Everything answers: the direct source is [direct]. *)
Definition healthy (direct : io Response) : Env :=
  world direct ok_manifest ok_init ok_seg0 ok_seg1 ok_license two_keys 0.

Definition wvd_path : string := "/home/user/.config/music-dl/device.wvd".

(** A file system holding only the device credential. *)
Definition disk : FS := {[ wvd_path := bytes "WVD" ]}.

(** The directories of the home of the user, and the one for temporary
    files. *)
Definition home_dirs : gset string :=
  list_to_set ["/home"; "/home/user"; "/home/user/.config";
               "/home/user/.config/music-dl"; "/tmp"].

Definition start : State :=
  {| fs := disk; cdm_calls := []; procs := []; dirs := home_dirs |}.

(** The same, once the output directory is there. *)
Definition ready : State := add_dir "out" start.

(** A file system in which a file has the name of the output
    directory. *)
Definition blocked : State :=
  {| fs := {[ "out" := bytes "X" ]}; cdm_calls := []; procs := [];
     dirs := home_dirs |}.

Definition a_key : string := "0123456789abcdef0123456789ABCDEF".

Definition args_with_key (url : string) : Args :=
  {| args_url := url; args_output := "out"; args_cdm := None;
     args_key := Some a_key |}.

Definition args_with_cdm (url : string) : Args :=
  {| args_url := url; args_output := "out"; args_cdm := Some wvd_path;
     args_key := None |}.

Definition pssh : string := "AAAAOHBzc2g=".

(** The license endpoint answers with a server error. *)
Definition license_down : Env :=
  world not_found ok_manifest ok_init ok_seg0 ok_seg1 server_error two_keys 0.


(** The second media segment answers with a server error. *)
Definition seg1_down : Env :=
  world not_found ok_manifest ok_init ok_seg0 server_error ok_license two_keys 0.

(** The init segment answers with status 404 and an error page. *)
Definition init_missing : Env :=
  world not_found ok_manifest not_found ok_seg0 ok_seg1 ok_license two_keys 0.

(** The engine exits with status 1. *)
Definition engine_fails : Env :=
  world not_found ok_manifest ok_init ok_seg0 ok_seg1 ok_license two_keys 1.

Definition enc_path : string := "/tmp/tmp0.enc.m4a".
Definition m4a_dest : string := "out/Band - Song.m4a".

(** A key of 32 hexadecimal characters followed by a line feed. *)
Definition padded_key : string := a_key +:+ nl.


(** What [manifest] parses to. *)
Definition parsed_manifest : StreamManifest :=
  {| key_id := manifest_key_id; pssh_b64 := Some "AAAAOHBzc2g=";
     init_uri := "init.mp4";
     segment_uris := ["seg0.m4s"; "/media/seg1.m4s"] |}.

(** The manifest endpoint serves a manifest that announces nothing. *)
Definition emptied : Env :=
  world not_found (Done (response 200 empty_manifest))
        ok_init ok_seg0 ok_seg1 ok_license two_keys 0.

(** [manifest_lines] as a header and two announced segments. *)
Definition manifest_header : list string := firstn 3 manifest_lines.

Definition manifest_blocks : list segment_block :=
  [ {| announcement := "#EXTINF:4.0,";
       interleaved := ["#EXT-X-BITRATE:128"; ""];
       uri_line := "  seg0.m4s  ";
       trailing := [] |};
    {| announcement := "#EXTINF:4.0,";
       interleaved := [];
       uri_line := "/media/seg1.m4s";
       trailing := ["#EXT-X-ENDLIST"] |} ].

(** Three announcements in a row, with a comment among them. *)
Definition announcement_run : list string :=
  ["#EXTINF:1.0,"; "  #EXTINF:2.0,"; "# comment"; "#EXTINF:3.0,"].

(** The direct source serves the track. *)
Definition mp3_response : Response :=
  {| status_code := 200; content_length := Some "3";
     text := "MP3"; content := bytes "MP3";
     iter_content := ([bytes "MP"; bytes "3"], None) |}.

(** The same answer, with a stream that breaks after the first chunk. *)
Definition mp3_broken : Response :=
  {| status_code := 200; content_length := Some "3";
     text := "MP3"; content := bytes "MP3";
     iter_content := ([bytes "MP"], Some "Connection broken") |}.

Definition mp3_dest : string := "out/Band - Song.mp3".

Definition args_bare (url : string) : Args :=
  {| args_url := url; args_output := "out"; args_cdm := None;
     args_key := None |}.

(** A file system with a freshly extracted device file and no installed
    credential. *)
Definition extracted_path : string := "/tmp/keydive_output/device.wvd".
Definition fresh_disk : FS := {[ extracted_path := bytes "WVD" ]}.
Definition fresh : State :=
  {| fs := fresh_disk; cdm_calls := []; procs := [];
     dirs := union home_dirs (list_to_set ["/tmp/keydive_output"]) |}.

(** [healthy], with the override variable naming the extracted file. *)
Definition overridden : Env :=
  let e := healthy not_found in
  {| http_get := http_get e; http_post := http_post e;
     run_process := run_process e; temp_name := temp_name e;
     Device_load := Device_load e; Cdm_from_device := Cdm_from_device e;
     cdm_open := cdm_open e; PSSH_new := PSSH_new e;
     cdm_get_license_challenge := cdm_get_license_challenge e;
     cdm_parse_license := cdm_parse_license e;
     extract_suno_info := extract_suno_info e;
     extract_song_info := extract_song_info e;
     os_environ := fun k =>
       if String.eqb k "MUSIC_DL_CDM" then Some extracted_path else None;
     sys_platform := sys_platform e; Path_home := Path_home e;
     iterdir_order := iterdir_order e |}.

(** Both the installed and the extracted device file are there. *)
Definition both_disk : FS :=
  {[ wvd_path := bytes "OLD"; extracted_path := bytes "WVD" ]}.
(** A configuration directory that holds the credential under another
    name, next to a file that is not one. *)
Definition renamed : State :=
  {| fs := {[ "/home/user/.config/music-dl/notes.txt" := bytes "N";
              "/home/user/.config/music-dl/pixel.wvd" := bytes "WVD" ]};
     cdm_calls := []; procs := []; dirs := home_dirs |}.

Definition both : State :=
  {| fs := both_disk; cdm_calls := []; procs := [];
     dirs := union home_dirs (list_to_set ["/tmp/keydive_output"]) |}.

(** The second media segment cannot be reached. *)
Definition seg1_unreachable : Env :=
  world not_found ok_manifest ok_init ok_seg0 unreachable ok_license two_keys 0.

(** [healthy], with a metadata extraction that finds no identifier. *)
Definition anonymous_info : SongInfo :=
  {| id := "Unknown"; title := "Song"; artist := "Band"; song_path := mp3_url |}.

Definition anonymous : Env :=
  let e := healthy not_found in
  {| http_get := http_get e; http_post := http_post e;
     run_process := run_process e; temp_name := temp_name e;
     Device_load := Device_load e; Cdm_from_device := Cdm_from_device e;
     cdm_open := cdm_open e; PSSH_new := PSSH_new e;
     cdm_get_license_challenge := cdm_get_license_challenge e;
     cdm_parse_license := cdm_parse_license e;
     extract_suno_info := fun _ _ => anonymous_info;
     extract_song_info := fun _ => Ok anonymous_info;
     os_environ := os_environ e;
     sys_platform := sys_platform e; Path_home := Path_home e;
     iterdir_order := iterdir_order e |}.

Definition nowhere_url : string := "https://nowhere.example.com/song".

End Double.

(** * Properties *)

(** ** The manifest scanner *)

Section Scanner.
Import PyStr.

Lemma announcement_is_comment line :
  is_announcement line = true -> is_uri_line line = false.
Proof.
  unfold is_announcement, is_uri_line.
  destruct (strip line) as [|c s]; [discriminate|].
  cbn [startswith truthy].
  destruct (Ascii.eqb "#" c); [reflexivity | discriminate].
Qed.

Lemma scan_step_announcement flag uris line :
  is_announcement line = true -> scan_step (flag, uris) line = (true, uris).
Proof. unfold is_announcement, scan_step. intros ->. reflexivity. Qed.

Lemma scan_step_capture uris line :
  is_uri_line line = true ->
  scan_step (true, uris) line = (false, uris ++ [strip line]).
Proof.
  intros Hu. unfold scan_step.
  destruct (startswith (strip line) "#EXTINF:") eqn:Ha.
  - apply announcement_is_comment in Ha. congruence.
  - unfold is_uri_line in Hu. cbn [andb]. rewrite Hu. reflexivity.
Qed.

Lemma scan_step_idle uris line :
  is_announcement line = false -> scan_step (false, uris) line = (false, uris).
Proof. unfold is_announcement, scan_step. intros ->. reflexivity. Qed.

Lemma scan_step_metadata flag uris line :
  is_metadata line = true -> scan_step (flag, uris) line = (flag, uris).
Proof.
  unfold is_metadata, is_announcement, is_uri_line, scan_step.
  intros [Ha Hu]%andb_true_iff.
  apply negb_true_iff in Ha, Hu. rewrite Ha.
  destruct flag; cbn [andb]; [rewrite Hu|]; reflexivity.
Qed.

Lemma scan_loop_app l1 l2 st :
  scan_loop (l1 ++ l2) st = scan_loop l2 (scan_loop l1 st).
Proof. revert st. induction l1 as [|l l1 IH]; intros st; simpl; auto. Qed.

Lemma scan_loop_metadata lines flag uris :
  Forall (fun l => is_metadata l = true) lines ->
  scan_loop lines (flag, uris) = (flag, uris).
Proof.
  induction 1 as [|l lines Hl _ IH]; cbn [scan_loop]; [reflexivity|].
  rewrite scan_step_metadata by assumption. exact IH.
Qed.

Lemma scan_loop_idle lines uris :
  Forall (fun l => is_announcement l = false) lines ->
  scan_loop lines (false, uris) = (false, uris).
Proof.
  induction 1 as [|l lines Hl _ IH]; cbn [scan_loop]; [reflexivity|].
  rewrite scan_step_idle by assumption. exact IH.
Qed.

(** A run of lines none of which is a URI line leaves the list alone, and
    raises the flag if it holds an announcement. *)
Lemma scan_loop_no_uri lines flag uris :
  Forall (fun l => is_uri_line l = false) lines ->
  scan_loop lines (flag, uris)
  = (flag || existsb is_announcement lines, uris).
Proof.
  intros H. revert flag.
  induction H as [|l lines Hl _ IH]; intros flag; cbn [scan_loop existsb].
  - rewrite orb_false_r. reflexivity.
  - destruct (is_announcement l) eqn:Ha.
    + rewrite scan_step_announcement by assumption.
      rewrite IH. cbn [orb]. rewrite orb_true_r. reflexivity.
    + rewrite scan_step_metadata
        by (unfold is_metadata; rewrite Ha, Hl; reflexivity).
      rewrite IH. reflexivity.
Qed.

Lemma scan_loop_block b flag uris :
  well_formed_block b ->
  scan_loop (block_lines b) (flag, uris)
  = (false, uris ++ [strip (uri_line b)]).
Proof.
  intros (Ha & Hi & Hu & Ht). unfold block_lines.
  cbn [scan_loop]. rewrite scan_step_announcement by assumption.
  rewrite scan_loop_app, scan_loop_metadata by assumption.
  cbn [scan_loop]. rewrite scan_step_capture by assumption.
  apply scan_loop_metadata; assumption.
Qed.

Lemma scan_loop_blocks blocks flag uris :
  Forall well_formed_block blocks ->
  scan_loop (concat (map block_lines blocks)) (flag, uris)
  = (match blocks with [] => flag | _ => false end,
     uris ++ map (fun b => strip (uri_line b)) blocks).
Proof.
  intros H. revert flag uris.
  induction H as [|b blocks Hb _ IH]; intros flag uris;
    cbn [map concat scan_loop].
  - rewrite app_nil_r. reflexivity.
  - rewrite scan_loop_app, scan_loop_block by assumption.
    rewrite IH. rewrite <- app_assoc.
    destruct blocks; reflexivity.
Qed.

End Scanner.

(** ** Claims on the manifest scanner *)

Section ScannerClaims.
Import PyStr.

(** C4. A manifest document whose lines are a header without announcement
    followed by N blocks, each an announcement line, then comment or blank
    lines, then one URI line, then comment or blank lines, is scanned into
    exactly the N URI lines (stripped), in document order; the
    awaiting-URI flag is down at the end. *)
Theorem scan_announced_segments (manifest : string)
    (header : list string) (blocks : list segment_block) :
  splitlines manifest = header ++ concat (map block_lines blocks) ->
  Forall (fun l => is_announcement l = false) header ->
  Forall well_formed_block blocks ->
  scan_segment_uris manifest = map (fun b => strip (uri_line b)) blocks
  /\ length (scan_segment_uris manifest) = length blocks
  /\ fst (scan_loop (splitlines manifest) (false, [])) = false.
Proof.
  intros Hlines Hheader Hblocks.
  assert (Hscan : scan_loop (splitlines manifest) (false, [])
                  = (false, map (fun b => strip (uri_line b)) blocks)).
  { rewrite Hlines, scan_loop_app, scan_loop_idle by assumption.
    rewrite scan_loop_blocks by assumption.
    destruct blocks; reflexivity. }
  unfold scan_segment_uris. rewrite Hscan. cbn [fst snd].
  rewrite length_map. auto.
Qed.

Lemma scan_announced_segments_witness :
  scan_segment_uris Double.manifest = ["seg0.m4s"; "/media/seg1.m4s"]
  /\ length (scan_segment_uris Double.manifest) = 2
  /\ fst (scan_loop (splitlines Double.manifest) (false, [])) = false.
Proof.
  apply (scan_announced_segments Double.manifest
           Double.manifest_header Double.manifest_blocks).
  - reflexivity.
  - repeat constructor.
  - repeat constructor.
Defined.

(** The loop, from any state: after a run of lines that holds at least one
    announcement and no URI line, the next URI line is captured once and
    the flag is lowered; lines read while the flag is down are not captured
    as long as none of them is an announcement. *)
Lemma scan_consecutive_announcements (run stray : list string)
    (u : string) (flag : bool) (uris : list string) :
  Forall (fun l => is_uri_line l = false) run ->
  1 <= length (List.filter is_announcement run) ->
  is_uri_line u = true ->
  Forall (fun l => is_announcement l = false) stray ->
  scan_loop (run ++ [u]) (flag, uris) = (false, uris ++ [strip u])
  /\ scan_loop (run ++ u :: stray) (flag, uris) = (false, uris ++ [strip u])
  /\ scan_loop stray (false, uris) = (false, uris).
Proof.
  intros Hrun Hk Hu Hstray.
  assert (Hex : existsb is_announcement run = true).
  { clear Hrun. induction run as [|l run IH]; cbn [List.filter] in Hk.
    - simpl in Hk. lia.
    - cbn [existsb]. destruct (is_announcement l); [reflexivity|auto]. }
  assert (Hup : scan_loop run (flag, uris) = (true, uris)).
  { rewrite scan_loop_no_uri by assumption. rewrite Hex, orb_true_r.
    reflexivity. }
  repeat split.
  - rewrite scan_loop_app, Hup. cbn [scan_loop].
    apply scan_step_capture; assumption.
  - rewrite scan_loop_app, Hup. cbn [scan_loop].
    rewrite scan_step_capture by assumption.
    apply scan_loop_idle; assumption.
  - apply scan_loop_idle; assumption.
Qed.

Lemma scan_consecutive_announcements_witness :
  scan_loop (Double.announcement_run ++ ["seg.m4s"]) (false, [])
  = (false, ["seg.m4s"])
  /\ scan_loop (Double.announcement_run ++ "seg.m4s" :: ["stray.m4s"; ""])
               (false, [])
     = (false, ["seg.m4s"])
  /\ scan_loop ["stray.m4s"; ""] (false, []) = (false, []).
Proof.
  apply (scan_consecutive_announcements Double.announcement_run
           ["stray.m4s"; ""] "seg.m4s" false []).
  - repeat constructor.
  - vm_compute. lia.
  - reflexivity.
  - repeat constructor.
Defined.

(** The list grows at its end: what the loop captures does not depend on
    what was captured before. *)
Lemma scan_loop_acc lines flag uris :
  scan_loop lines (flag, uris)
  = (fst (scan_loop lines (flag, [])), uris ++ snd (scan_loop lines (flag, []))).
Proof.
  revert flag uris. induction lines as [|l lines IH]; intros flag uris.
  - cbn. rewrite app_nil_r. reflexivity.
  - cbn [scan_loop].
    assert (Hstep : exists flag' new,
               forall acc, scan_step (flag, acc) l = (flag', acc ++ new)).
    { unfold scan_step. destruct (startswith (strip l) "#EXTINF:").
      - exists true, []. intros acc. rewrite app_nil_r. reflexivity.
      - destruct (flag && truthy (strip l) && negb (startswith (strip l) "#")).
        + exists false, [strip l]. reflexivity.
        + exists flag, []. intros acc. rewrite app_nil_r. reflexivity. }
    destruct Hstep as (flag' & new & Hstep).
    rewrite (Hstep uris), (Hstep []). cbn [app].
    rewrite (IH flag' (uris ++ new)), (IH flag' new).
    cbn [fst snd]. rewrite app_assoc. reflexivity.
Qed.

(** C10. In a manifest document where a run of lines holding k >= 1
    announcements (so also k >= 2) and no URI line is followed by a URI
    line, that line is captured exactly once, whatever k is, and the lines
    after it are not captured until the next announcement, even those that
    are neither comments nor blank: the media segments of the document are
    those of the lines before the run, then that one line, then those of
    the lines after, scanned afresh with the flag down. Likewise the
    lines at the head of the document, before any announcement, are never
    captured. *)
Theorem consecutive_announcements_capture_once (manifest : string)
    (before run stray after : list string) (u : string) :
  splitlines manifest = before ++ run ++ u :: stray ++ after ->
  Forall (fun l => is_uri_line l = false) run ->
  1 <= length (List.filter is_announcement run) ->
  is_uri_line u = true ->
  Forall (fun l => is_announcement l = false) stray ->
  scan_segment_uris manifest
  = snd (scan_loop before (false, []))
    ++ strip u :: snd (scan_loop after (false, []))
  /\ (forall head rest,
        splitlines manifest = head ++ rest ->
        Forall (fun l => is_announcement l = false) head ->
        scan_segment_uris manifest = snd (scan_loop rest (false, []))).
Proof.
  intros Hlines Hrun Hk Hu Hstray. split.
  - unfold scan_segment_uris. rewrite Hlines, scan_loop_app.
    destruct (scan_loop before (false, [])) as [flag uris]. cbn [snd].
    replace (run ++ u :: stray ++ after) with ((run ++ u :: stray) ++ after)
      by (rewrite <- app_assoc; reflexivity).
    rewrite scan_loop_app.
    destruct (scan_consecutive_announcements run stray u flag uris
                Hrun Hk Hu Hstray) as (_ & -> & _).
    rewrite scan_loop_acc. cbn [snd]. rewrite <- app_assoc. reflexivity.
  - intros head rest Hsplit Hhead. unfold scan_segment_uris.
    rewrite Hsplit, scan_loop_app, scan_loop_idle by assumption.
    reflexivity.
Qed.

Lemma consecutive_announcements_capture_once_witness :
  scan_segment_uris
    (String.concat Double.nl
       (["#EXTM3U"; "#EXTINF:4.0,"; "first.m4s"]
        ++ Double.announcement_run
        ++ "seg.m4s" :: ["stray.m4s"; ""] ++ ["#EXTINF:4.0,"; "last.m4s"]))
  = ["first.m4s"; "seg.m4s"; "last.m4s"].
Proof.
  apply (proj1 (consecutive_announcements_capture_once
                  (String.concat Double.nl
                     (["#EXTM3U"; "#EXTINF:4.0,"; "first.m4s"]
                      ++ Double.announcement_run
                      ++ "seg.m4s" :: ["stray.m4s"; ""]
                      ++ ["#EXTINF:4.0,"; "last.m4s"]))
                  ["#EXTM3U"; "#EXTINF:4.0,"; "first.m4s"]
                  Double.announcement_run ["stray.m4s"; ""]
                  ["#EXTINF:4.0,"; "last.m4s"] "seg.m4s"
                  eq_refl
                  ltac:(repeat constructor)
                  ltac:(vm_compute; lia)
                  eq_refl
                  ltac:(repeat constructor))).
Defined.

End ScannerClaims.

(** ** Claims on manifest resolution *)

Section ManifestClaims.
Import PyStr.

Lemma parse_manifest_segments song_id manifest m :
  parse_manifest song_id manifest = Ok m ->
  segment_uris m = scan_segment_uris manifest /\ segment_uris m <> [].
Proof.
  unfold parse_manifest.
  destruct (scan_segment_uris manifest) as [|u us]; [discriminate|].
  intros [= <-]. cbn [segment_uris]. split; [reflexivity | discriminate].
Qed.

(** C5. When the manifest endpoint answers and the scan of the document
    finds no media segment URI, [fetch_stream_segments] raises the
    manifest error ("No media segments found in HLS manifest"); and
    whenever it returns a manifest, its list of media segments is not
    empty. *)
Theorem fetch_stream_segments_never_empty (env : Env) (song_id : string)
    (st : State) :
  (forall resp,
      http_get env (manifest_url song_id) origin_header = Done resp ->
      raise_for_status resp = Ok tt ->
      scan_segment_uris (text resp) = [] ->
      fetch_stream_segments env song_id st = (Raise no_segments, st))
  /\ (forall m st',
        fetch_stream_segments env song_id st = (Ok m, st') ->
        segment_uris m <> []).
Proof.
  unfold fetch_stream_segments, SESSION_get, bind, lift_result, ret, raise.
  split.
  - intros resp -> -> Hscan. unfold parse_manifest. rewrite Hscan.
    reflexivity.
  - intros m st'.
    destruct (http_get env (manifest_url song_id) origin_header) as [resp|why];
      [|discriminate].
    destruct (raise_for_status resp); [|discriminate].
    destruct (parse_manifest song_id (text resp)) as [m'|e] eqn:Hp;
      [|discriminate].
    intros [= <- _]. apply parse_manifest_segments in Hp. tauto.
Qed.

Lemma fetch_stream_segments_never_empty_witness :
  fetch_stream_segments Double.emptied Double.song_id Double.start
  = (Raise no_segments, Double.start)
  /\ segment_uris Double.parsed_manifest <> [].
Proof.
  split.
  - apply (proj1 (fetch_stream_segments_never_empty
                    Double.emptied Double.song_id Double.start)
             (Double.response 200 Double.empty_manifest));
      reflexivity.
  - apply (proj2 (fetch_stream_segments_never_empty
                    (Double.healthy Double.not_found) Double.song_id
                    Double.start)
             Double.parsed_manifest Double.start).
    reflexivity.
Defined.

Lemma startswith_slash_not_http uri :
  startswith uri "/" = true ->
  startswith uri "http://" || startswith uri "https://" = false.
Proof.
  destruct uri as [|c r]; [discriminate|]. cbn [startswith].
  rewrite andb_true_r. intros H. apply Ascii.eqb_eq in H. subst c.
  reflexivity.
Qed.

Lemma resolved_is_absolute uri :
  startswith (resolve_stream_uri uri) "http://"
  || startswith (resolve_stream_uri uri) "https://" = true.
Proof.
  unfold resolve_stream_uri.
  destruct (startswith uri "http://" || startswith uri "https://") eqn:E;
    [exact E|].
  destruct (startswith uri "/"); reflexivity.
Qed.

(** C6. [resolve_stream_uri] returns a URI that starts with http:// or
    https:// unchanged, so resolving twice is resolving once; it prefixes a
    URI with a leading slash with the scheme and host of the streaming
    origin, and any other URI with the origin root and a slash. *)
Theorem resolve_stream_uri_cases (uri : string) :
  (startswith uri "http://" = true \/ startswith uri "https://" = true ->
   resolve_stream_uri uri = uri)
  /\ resolve_stream_uri (resolve_stream_uri uri) = resolve_stream_uri uri
  /\ (startswith uri "/" = true ->
      resolve_stream_uri uri = "https://stream.udio.com" +:+ uri)
  /\ (startswith uri "http://" = false ->
      startswith uri "https://" = false ->
      startswith uri "/" = false ->
      resolve_stream_uri uri = "https://stream.udio.com/" +:+ uri).
Proof.
  repeat split.
  - intros H. unfold resolve_stream_uri.
    destruct H as [-> | ->]; [|rewrite orb_true_r]; reflexivity.
  - pose proof (resolved_is_absolute uri) as H.
    unfold resolve_stream_uri at 1. rewrite H. reflexivity.
  - intros H. unfold resolve_stream_uri.
    rewrite (startswith_slash_not_http uri H), H. reflexivity.
  - intros H1 H2 H3. unfold resolve_stream_uri.
    rewrite H1, H2, H3. reflexivity.
Qed.

Lemma resolve_stream_uri_cases_witness :
  resolve_stream_uri "http://cdn.example.com/a.m4s" = "http://cdn.example.com/a.m4s"
  /\ resolve_stream_uri "https://cdn.example.com/a.m4s"
     = "https://cdn.example.com/a.m4s"
  /\ resolve_stream_uri "/media/seg1.m4s"
     = "https://stream.udio.com/media/seg1.m4s"
  /\ resolve_stream_uri "seg0.m4s" = "https://stream.udio.com/seg0.m4s".
Proof.
  split; [|split; [|split]].
  - apply (proj1 (resolve_stream_uri_cases "http://cdn.example.com/a.m4s")).
    left. reflexivity.
  - apply (proj1 (resolve_stream_uri_cases "https://cdn.example.com/a.m4s")).
    right. reflexivity.
  - apply (proj1 (proj2 (proj2 (resolve_stream_uri_cases "/media/seg1.m4s")))).
    reflexivity.
  - apply (proj2 (proj2 (proj2 (resolve_stream_uri_cases "seg0.m4s"))));
      reflexivity.
Defined.

End ManifestClaims.

(** ** Claims on key negotiation *)

Section KeyClaims.
Import PyStr.
Variable env : Env.

Lemma hex_truthy (bs : list byte) : bs <> [] -> truthy (PyBytes.hex bs) = true.
Proof. destruct bs as [|b r]; [congruence | reflexivity]. Qed.

(** The loop: an early return at the first content key that matches, with
    the session closed; otherwise the first content key is remembered. *)
Lemma key_loop_spec session_id key_id keys content_key st :
  key_loop session_id key_id keys content_key st
  = match List.find (fun k => String.eqb (kid k) key_id) (content_keys keys) with
    | Some k => (Ok (inl (PyBytes.hex (key k))), log_cdm (CClose session_id) st)
    | None =>
        (Ok (inr match content_key with
                 | Some _ => content_key
                 | None => option_map (fun k => PyBytes.hex (key k))
                                      (head (content_keys keys))
                 end), st)
    end.
Proof.
  revert content_key.
  induction keys as [|k keys IH]; intros content_key.
  - destruct content_key; reflexivity.
  - cbn [key_loop]. unfold content_keys. cbn [List.filter].
    fold (content_keys keys).
    change (String.eqb (type k) "CONTENT") with (is_content k).
    destruct (is_content k); [|apply IH].
    cbn [List.find head option_map].
    destruct (String.eqb (kid k) key_id); [reflexivity|].
    rewrite IH.
    destruct (List.find _ (content_keys keys)); [reflexivity|].
    destruct content_key; reflexivity.
Qed.

Lemma obtain_content_key_reaches_loop st cdm_path pssh_b64 key_id keys :
  license_yields env st cdm_path pssh_b64 keys ->
  exists session_id st1,
    cdm_calls st1 = cdm_calls st ++ [COpen session_id; CChallenge session_id;
                                     CParse session_id; CGetKeys session_id]
    /\ fs st1 = fs st /\ procs st1 = procs st
    /\ obtain_content_key env cdm_path pssh_b64 key_id st
       = match key_loop session_id key_id keys None st1 with
         | (Ok (inl key_hex), s) => (Ok key_hex, s)
         | (Ok (inr content_key), s) =>
             match content_key with
             | Some key_hex =>
                 if truthy key_hex then (Ok key_hex, log_cdm (CClose session_id) s)
                 else (Raise no_content_key, log_cdm (CClose session_id) s)
             | None => (Raise no_content_key, log_cdm (CClose session_id) s)
             end
         | (Raise e, s) => (Raise e, s)
         end.
Proof.
  intros (data & device & sid & pssh & ch & resp & Hf & Hd & Hc & Ho & Hp
          & Hch & Hpost & Hst & Hparse).
  exists sid.
  eexists (log_cdm (CGetKeys sid) (log_cdm (CParse sid)
             (log_cdm (CChallenge sid) (log_cdm (COpen sid) st)))).
  split; [|split; [|split]].
  - cbn [log_cdm cdm_calls]. rewrite <- !app_assoc. reflexivity.
  - reflexivity.
  - reflexivity.
  - unfold obtain_content_key, cdm_open_session, get_license_challenge,
      parse_license, SESSION_post, cdm_close, lift_cdm, lift_result, gets,
      modify, bind, ret, raise.
    rewrite Hf, Hd, Hc, Ho, Hp. cbn [log_cdm fs]. rewrite Hch, Hpost, Hst.
    cbn [log_cdm fs]. rewrite Hparse.
    destruct (key_loop sid key_id keys None _) as [[[key_hex|[key_hex|]]|e] s];
      try reflexivity.
    destruct (truthy key_hex); reflexivity.
Qed.



End KeyClaims.

Section KeyWitnesses.
Import Double.

Lemma healthy_license_yields direct :
  license_yields (healthy direct) start wvd_path pssh two_keys.
Proof.
  exists (bytes "WVD"), (bytes "WVD"), session, pssh, (bytes "CHALLENGE"),
    (response 200 "LICENSE").
  repeat split.
Qed.





End KeyWitnesses.

(** ** Session closure *)

Section Closure.
Variable env : Env.

Lemma close_count_app a b :
  close_count (a ++ b) = close_count a + close_count b.
Proof. unfold close_count. rewrite List.filter_app, length_app. reflexivity. Qed.

(** When the negotiation gets as far as the keys of the license, the
    session is closed exactly once, whatever the selection gives. *)
Lemma close_once_when_keys_listed st cdm_path pssh_b64 key_id keys :
  license_yields env st cdm_path pssh_b64 keys ->
  close_count (cdm_calls (snd (obtain_content_key env cdm_path pssh_b64 key_id st)))
  = close_count (cdm_calls st) + 1.
Proof.
  intros Hy.
  destruct (obtain_content_key_reaches_loop env st cdm_path pssh_b64 key_id keys Hy)
    as (sid & st1 & Hcalls & _ & _ & ->).
  rewrite key_loop_spec.
  assert (Hclose : close_count (cdm_calls (log_cdm (CClose sid) st1))
                   = close_count (cdm_calls st) + 1).
  { cbn [log_cdm cdm_calls]. rewrite Hcalls, !close_count_app.
    unfold close_count. cbn. lia. }
  destruct (List.find _ (content_keys keys)); [exact Hclose|].
  destruct (head (content_keys keys)) as [k|]; cbn [option_map];
    [destruct (PyStr.truthy _)|]; exact Hclose.
Qed.

(** When the negotiation fails before the keys are listed (the device does
    not load, the session does not open, the protection header or the
    challenge is refused, the license endpoint fails or answers with an
    error status, the license does not parse), no closure is recorded. *)
Lemma no_close_on_earlier_failure st cdm_path pssh_b64 key_id e :
  fst (obtain_content_key env cdm_path pssh_b64 key_id st) = Raise e ->
  e <> no_content_key ->
  close_count (cdm_calls (snd (obtain_content_key env cdm_path pssh_b64 key_id st)))
  = close_count (cdm_calls st).
Proof.
  unfold obtain_content_key, cdm_open_session, get_license_challenge,
    parse_license, SESSION_post, cdm_close, lift_cdm, lift_result, gets,
    modify, bind, ret, raise.
  destruct (fs st !! cdm_path) as [data|]; [|reflexivity].
  destruct (Device_load env data) as [device|]; [|reflexivity].
  destruct (Cdm_from_device env device); [|reflexivity].
  destruct (cdm_open env) as [sid|]; [|reflexivity].
  destruct (PSSH_new env pssh_b64) as [pssh|];
    [|cbn [fst snd log_cdm cdm_calls]; intros _ _;
      rewrite close_count_app; cbn; lia].
  cbn [log_cdm fs cdm_calls].
  destruct (cdm_get_license_challenge env sid pssh) as [ch|];
    [|cbn [fst snd log_cdm cdm_calls]; intros _ _;
      rewrite !close_count_app; cbn; lia].
  destruct (http_post env LICENSE_URL ch origin_header) as [resp|];
    [|cbn [fst snd log_cdm cdm_calls]; intros _ _;
      rewrite !close_count_app; cbn; lia].
  destruct (raise_for_status resp);
    [|cbn [fst snd log_cdm cdm_calls]; intros _ _;
      rewrite !close_count_app; cbn; lia].
  destruct (cdm_parse_license env sid (content resp)) as [keys|];
    [|cbn [fst snd log_cdm cdm_calls]; intros _ _;
      rewrite !close_count_app; cbn; lia].
  rewrite key_loop_spec.
  destruct (List.find _ (content_keys keys)); [discriminate|].
  destruct (head (content_keys keys)) as [k|]; cbn [option_map].
  - destruct (PyStr.truthy _); [discriminate|].
    cbn [fst]. intros [= <-] Hne. exfalso. apply Hne. reflexivity.
  - cbn [fst]. intros [= <-] Hne. exfalso. apply Hne. reflexivity.
Qed.

(** C1 (the code departs from it). The license endpoint answers with status
    500: [obtain_content_key] propagates the HTTP error having opened a
    session and built a challenge, and no closure of the session was
    invoked. *)
Theorem session_left_open_on_license_failure :
  let run := obtain_content_key Double.license_down Double.wvd_path
               Double.pssh Double.manifest_key_id Double.start in
  fst run = Raise (HTTPError 500)
  /\ cdm_calls (snd run) = [COpen Double.session; CChallenge Double.session]
  /\ close_count (cdm_calls (snd run)) = 0.
Proof. repeat split. Qed.

End Closure.

(** ** Frames *)

Section Frames.
Context {A B : Type}.
Variables (R : State -> State -> Prop) (E : exn -> Prop).
Hypothesis R_refl : forall st, R st st.
Hypothesis R_trans : forall a b c, R a b -> R b c -> R a c.

Lemma obeys_ret (a : A) : obeys R E (ret a).
Proof. intros st. split; [apply R_refl | discriminate]. Qed.

Lemma obeys_raise (e : exn) : E e -> obeys R E (@raise A e).
Proof. intros He st. split; [apply R_refl | intros e' [= <-]; exact He]. Qed.

Lemma obeys_gets (f : State -> A) : obeys R E (gets f).
Proof. intros st. split; [apply R_refl | discriminate]. Qed.

Lemma obeys_lift_result (r : result A) :
  (forall e, r = Raise e -> E e) -> obeys R E (lift_result r).
Proof. intros Hr st. split; [apply R_refl | exact Hr]. Qed.

Lemma obeys_bind (m : M A) (k : A -> M B) :
  obeys R E m -> (forall a, obeys R E (k a)) -> obeys R E (bind m k).
Proof.
  intros Hm Hk st. unfold bind.
  destruct (Hm st) as [HR HE]. destruct (m st) as [[a|e] st1]; cbn in *.
  - destruct (Hk a st1) as [HR' HE']. split; [|exact HE'].
    eapply R_trans; eassumption.
  - split; [exact HR|]. intros e' [= <-]. apply HE. reflexivity.
Qed.

End Frames.

Section FrameLoops.
Variables (R : State -> State -> Prop) (E : exn -> Prop).
Hypothesis R_refl : forall st, R st st.
Hypothesis R_trans : forall a b c, R a b -> R b c -> R a c.

Lemma obeys_modify (f : State -> State) :
  (forall st, R st (f st)) -> obeys R E (modify f).
Proof. intros Hf st. split; [apply Hf | discriminate]. Qed.

Lemma obeys_for_each {A} (l : list A) (body : A -> M unit) :
  (forall x, obeys R E (body x)) -> obeys R E (for_each l body).
Proof.
  intros Hbody. induction l as [|x l IH]; cbn [for_each].
  - apply obeys_ret; assumption.
  - apply obeys_bind; auto.
Qed.

End FrameLoops.

Lemma quiet_refl st : quiet st st.
Proof. split; reflexivity. Qed.

Lemma quiet_trans a b c : quiet a b -> quiet b c -> quiet a c.
Proof. intros [H1 H2] [H3 H4]. split; congruence. Qed.

Lemma quiet_set_fs f st : quiet st (set_fs f st).
Proof. split; reflexivity. Qed.

Lemma untouched_refl st : untouched st st.
Proof. reflexivity. Qed.

Lemma untouched_trans a b c : untouched a b -> untouched b c -> untouched a c.
Proof. unfold untouched. congruence. Qed.

(** ** The stages of [download_drm_stream] *)

Section Stages.
Import PyStr.
Variable env : Env.

Section AnyFrame.
Variable R : State -> State -> Prop.
Hypothesis R_refl : forall st, R st st.
Hypothesis R_trans : forall a b c, R a b -> R b c -> R a c.

Lemma SESSION_get_obeys url headers :
  obeys R no_ValueError (SESSION_get env url headers).
Proof.
  unfold SESSION_get. destruct (http_get env url headers).
  - apply obeys_ret; assumption.
  - apply obeys_raise; [assumption | reflexivity].
Qed.

Lemma raise_for_status_obeys resp :
  obeys R no_ValueError (lift_result (raise_for_status resp)).
Proof.
  apply obeys_lift_result; [assumption|]. unfold raise_for_status.
  intros e. destruct (_ && _)%Z; [|discriminate]. intros [= <-]. reflexivity.
Qed.

Lemma fetch_stream_segments_obeys song_id :
  obeys R no_ValueError (fetch_stream_segments env song_id).
Proof.
  unfold fetch_stream_segments.
  apply obeys_bind; [assumption | apply SESSION_get_obeys |]. intros resp.
  apply obeys_bind; [assumption | apply raise_for_status_obeys |]. intros _.
  apply obeys_lift_result; [assumption|]. unfold parse_manifest.
  intros e. destruct (scan_segment_uris (text resp)); [|discriminate].
  intros [= <-]. reflexivity.
Qed.

End AnyFrame.

Lemma assemble_segments_obeys segs :
  obeys quiet no_ValueError (assemble_segments env segs).
Proof.
  pose proof quiet_refl as Hr. pose proof quiet_trans as Ht.
  assert (Hw : forall path data, obeys quiet no_ValueError (file_write path data)).
  { intros path data. apply obeys_modify. intros st. apply quiet_set_fs. }
  unfold assemble_segments, NamedTemporaryFile.
  repeat (apply obeys_bind; [assumption | | intros ?]);
    try (apply obeys_ret; assumption);
    try (apply SESSION_get_obeys; assumption);
    try apply Hw.
  - apply obeys_gets; assumption.
  - apply obeys_modify. intros st. apply quiet_set_fs.
  - apply obeys_for_each; [assumption..|]. intros seg_name.
    unfold append_segment.
    repeat (apply obeys_bind; [assumption | | intros ?]);
      [apply SESSION_get_obeys | apply raise_for_status_obeys | apply Hw];
      assumption.
Qed.

(** The decryption stage runs the engine once, with the key it was given,
    removes the encrypted file whatever the engine did, and raises no
    [ValueError]. *)
Lemma decrypt_and_cleanup_spec key_hex enc_path dest st :
  let run := decrypt_and_cleanup env key_hex enc_path dest st in
  procs (snd run) = procs st ++ [ffmpeg_argv key_hex enc_path dest]
  /\ fs (snd run) !! enc_path = None
  /\ forall e, fst run = Raise e -> no_ValueError e.
Proof.
  unfold decrypt_and_cleanup, try_finally, subprocess_run, unlink, modify,
    bind, ret, raise.
  cbn [log_proc fs procs].
  destruct (run_process env _ _) as [[cp fs']|why]; cbn [fst snd].
  - destruct (negb (returncode cp =? 0)%Z); cbn [fst snd set_fs fs procs];
      (split; [reflexivity|]); (split; [apply lookup_delete_eq|]);
      intros e; [intros [= <-]; reflexivity | discriminate].
  - cbn [fst snd set_fs fs procs log_proc].
    split; [reflexivity|]. split; [apply lookup_delete_eq|].
    intros e [= <-]. reflexivity.
Qed.

Lemma lower_char_hex c :
  char_in (lower_char c) "0123456789abcdef" = Re.hex_class c.
Proof. destruct c as [[] [] [] [] [] [] [] []]; reflexivity. Qed.

Lemma lower_length s : String.length (lower s) = String.length s.
Proof.
  unfold lower. induction s as [|c s IH]; [reflexivity|].
  cbn [map_chars String.length]. rewrite IH. reflexivity.
Qed.

Lemma lower_all_hex s :
  all_chars (fun c => char_in c "0123456789abcdef") (lower s)
  = all_chars Re.hex_class s.
Proof.
  induction s as [|c s IH]; [reflexivity|].
  unfold lower. cbn [map_chars all_chars]. fold (lower s).
  rewrite IH, lower_char_hex. reflexivity.
Qed.

(** The key check accepts exactly the keys that are 32 hexadecimal
    characters once stripped, and hands on their lower-case form. *)
Lemma normalise_key_spec key_hex :
  normalise_key key_hex
  = if is_hex_key (strip key_hex) then Ok (lower (strip key_hex))
    else Raise invalid_key.
Proof.
  unfold normalise_key, is_hex_key.
  rewrite lower_length, lower_all_hex.
  destruct (String.length (strip key_hex) =? 32)%nat; [|reflexivity].
  destruct (all_chars Re.hex_class (strip key_hex)); reflexivity.
Qed.

End Stages.

(** ** Claims on the decryption key *)

Section KeyFormatClaims.
Import PyStr.

(** C7, as the code has it. [download_drm_stream] raises the
    invalid-key-format error if and only if the key, once stripped of
    leading and trailing white space, is not exactly 32 hexadecimal
    characters (lower or upper case); it then raises it before anything
    else happens, so the engine is not invoked; and any engine invocation
    it makes carries the stripped key in lower case. *)
Theorem key_checked_after_stripping (env : Env)
    (song_id key_hex dest : string) (st : State) :
  let run := download_drm_stream env song_id key_hex dest st in
  (fst run = Raise invalid_key <-> is_hex_key (strip key_hex) = false)
  /\ (is_hex_key (strip key_hex) = false -> snd run = st)
  /\ (forall argv, In argv (procs (snd run)) ->
        In argv (procs st)
        \/ (is_hex_key (strip key_hex) = true
            /\ exists enc_path,
                argv = ffmpeg_argv (lower (strip key_hex)) enc_path dest)).
Proof.
  cbv zeta. unfold download_drm_stream, bind at 1, lift_result.
  rewrite normalise_key_spec.
  destruct (is_hex_key (strip key_hex)) eqn:Hkey; cbn [fst snd].
  2: { split; [tauto|]. split; [reflexivity|]. auto. }
  set (k := lower (strip key_hex)).
  unfold bind.
  destruct (fetch_stream_segments_obeys env untouched untouched_refl
              untouched_trans song_id st) as [Hs1 He1].
  destruct (fetch_stream_segments env song_id st) as [[segs|e1] st1];
    cbn [fst snd] in *; unfold untouched in Hs1; subst st1.
  2: { split; [|split]; [|discriminate|auto].
       split; [|discriminate]. intros [= ->]. specialize (He1 _ eq_refl).
       discriminate. }
  destruct (assemble_segments_obeys env segs st) as [[Hp2 _] He2].
  destruct (assemble_segments env segs st) as [[enc|e2] st2];
    cbn [fst snd] in *.
  2: { split; [|split]; [|discriminate|rewrite Hp2; auto].
       split; [|discriminate]. intros [= ->]. specialize (He2 _ eq_refl).
       discriminate. }
  destruct (decrypt_and_cleanup_spec env k enc dest st2) as (Hp3 & _ & He3).
  cbv zeta in Hp3, He3.
  split; [|split]; [|discriminate|].
  - split; [|discriminate]. intros H. specialize (He3 _ H). discriminate.
  - intros argv. rewrite Hp3, Hp2, in_app_iff. intros [H|[<-|[]]]; [auto|].
    right. split; [reflexivity|]. exists enc. reflexivity.
Qed.

(** A key of 31 characters is refused, and nothing has happened. *)
Lemma key_checked_after_stripping_witness :
  let run := download_drm_stream (Double.healthy Double.not_found)
               Double.song_id "0123456789abcdef0123456789abcde"
               Double.m4a_dest Double.start in
  fst run = Raise invalid_key /\ snd run = Double.start.
Proof.
  pose proof (key_checked_after_stripping (Double.healthy Double.not_found)
                Double.song_id "0123456789abcdef0123456789abcde"
                Double.m4a_dest Double.start) as (Hiff & Hstate & _).
  split.
  - apply Hiff. reflexivity.
  - apply Hstate. reflexivity.
Defined.

(** C7, as stated, fails: a key of 32 hexadecimal characters followed by a
    line feed is not exactly 32 hexadecimal characters, yet it is accepted
    and the engine is invoked (with the stripped key). *)
Lemma padded_key_is_accepted :
  String.length Double.padded_key = 33
  /\ is_hex_key Double.padded_key = false
  /\ let run := download_drm_stream (Double.healthy Double.not_found)
                  Double.song_id Double.padded_key Double.m4a_dest
                  Double.start in
     fst run = Ok tt
     /\ procs (snd run)
        = [ffmpeg_argv "0123456789abcdef0123456789abcdef"
                       Double.enc_path Double.m4a_dest].
Proof. repeat split. Qed.

End KeyFormatClaims.

(** ** Claims on segment assembly *)

Section AssemblyClaims.
Variable env : Env.

Lemma file_write_lookup path data st acc :
  fs st !! path = Some acc ->
  file_write path data st
  = (Ok tt, set_fs (<[path := acc ++ data]> (fs st)) st).
Proof. intros H. unfold file_write, modify. rewrite H. reflexivity. Qed.

Lemma append_segment_served enc_path uri body st acc :
  served env uri body ->
  fs st !! enc_path = Some acc ->
  append_segment env enc_path uri st
  = (Ok tt, set_fs (<[enc_path := acc ++ body]> (fs st)) st).
Proof.
  intros (r & Hr & Hok & <-) Hacc.
  unfold append_segment, SESSION_get, bind, lift_result.
  rewrite Hr. cbn [ret]. rewrite Hok. apply file_write_lookup. exact Hacc.
Qed.

Lemma append_segment_refused enc_path seg resp e st :
  http_get env (resolve_stream_uri seg) origin_header = Done resp ->
  raise_for_status resp = Raise e ->
  append_segment env enc_path seg st = (Raise e, st).
Proof.
  intros Hget Hstatus.
  unfold append_segment, SESSION_get, bind, lift_result.
  rewrite Hget. cbn [ret]. rewrite Hstatus. reflexivity.
Qed.

(** The loop over the media segments stops at the first segment whose
    response has an error status: the error is raised, and the file holds
    the bodies of the segments before it, and nothing of it or of the
    segments after it. *)
Lemma segment_loop_stops enc_path before bodies seg after resp e st acc :
  Forall2 (served env) before bodies ->
  http_get env (resolve_stream_uri seg) origin_header = Done resp ->
  raise_for_status resp = Raise e ->
  fs st !! enc_path = Some acc ->
  let run := for_each (before ++ seg :: after) (append_segment env enc_path) st in
  fst run = Raise e /\ fs (snd run) !! enc_path = Some (acc ++ concat bodies).
Proof.
  intros Hserved Hget Hstatus. revert st acc.
  induction Hserved as [|uri body before bodies Hs _ IH];
    intros st acc Hacc; cbv zeta; cbn [app for_each concat]; unfold bind.
  - rewrite (append_segment_refused _ _ _ _ _ Hget Hstatus).
    cbn [fst snd]. rewrite app_nil_r. auto.
  - rewrite (append_segment_served _ _ _ _ _ Hs Hacc).
    rewrite app_assoc. apply IH. cbn [set_fs fs]. apply lookup_insert_eq.
Qed.

(** The [with] block, step by step. *)
Lemma assemble_segments_unfold segs st :
  assemble_segments env segs st
  = let enc_path := temp_name env (fs st) ".enc.m4a" in
    match http_get env (resolve_stream_uri (init_uri segs)) origin_header with
    | Failed why =>
        (Raise (RequestException why), set_fs (<[enc_path := []]> (fs st)) st)
    | Done init_resp =>
        match for_each (segment_uris segs) (append_segment env enc_path)
                (set_fs (<[enc_path := content init_resp]>
                           (<[enc_path := []]> (fs st))) st) with
        | (Ok _, s) => (Ok enc_path, s)
        | (Raise e, s) => (Raise e, s)
        end
    end.
Proof.
  unfold assemble_segments, NamedTemporaryFile, file_create, file_write,
    gets, modify, SESSION_get, bind, ret, raise.
  destruct (http_get env _ origin_header) as [init_resp|why]; [|reflexivity].
  cbn [set_fs fs]. rewrite lookup_insert_eq. cbn [default app].
  reflexivity.
Qed.

(** For the media segments the claim C9 holds: an error status on a media
    segment makes [assemble_segments] raise the HTTP error, with the file
    holding the init segment and the media segments before the failing one
    only. *)
Lemma media_segment_failure_is_fatal segs init_resp before bodies seg after
    resp st :
  http_get env (resolve_stream_uri (init_uri segs)) origin_header = Done init_resp ->
  segment_uris segs = before ++ seg :: after ->
  Forall2 (served env) before bodies ->
  http_get env (resolve_stream_uri seg) origin_header = Done resp ->
  (400 <= status_code resp < 600)%Z ->
  let run := assemble_segments env segs st in
  fst run = Raise (HTTPError (status_code resp))
  /\ fs (snd run) !! temp_name env (fs st) ".enc.m4a"
     = Some (content init_resp ++ concat bodies).
Proof.
  intros Hinit Hsegs Hserved Hget Hstatus. cbv zeta.
  assert (Hraise : raise_for_status resp = Raise (HTTPError (status_code resp))).
  { unfold raise_for_status.
    replace ((400 <=? status_code resp)%Z && (status_code resp <? 600)%Z)
      with true; [reflexivity|].
    symmetry. apply andb_true_iff. split; [apply Z.leb_le | apply Z.ltb_lt]; lia. }
  rewrite assemble_segments_unfold. cbv zeta. rewrite Hinit, Hsegs.
  set (enc := temp_name env (fs st) ".enc.m4a").
  set (st2 := set_fs _ st).
  assert (H2 : fs st2 !! enc = Some (content init_resp)).
  { subst st2. cbn [set_fs fs]. rewrite insert_insert_eq.
    apply lookup_insert_eq. }
  destruct (segment_loop_stops enc before bodies seg after resp _ st2 _
              Hserved Hget Hraise H2) as [Hfst Hsnd].
  cbv zeta in Hfst, Hsnd.
  destruct (for_each _ _ st2) as [[[]|e] st3]; cbn [fst snd] in *;
    [discriminate|].
  split; congruence.
Qed.

(** The decryption stage leaves the output file as the engine left it. *)
Lemma output_left_as_engine_wrote key_hex enc_path dest st cp files :
  run_process env (ffmpeg_argv key_hex enc_path dest) (fs st) = Done (cp, files) ->
  dest <> enc_path ->
  fs (snd (decrypt_and_cleanup env key_hex enc_path dest st)) !! dest
  = files !! dest.
Proof.
  intros Hrun Hne.
  unfold decrypt_and_cleanup, try_finally, subprocess_run, unlink, modify,
    bind, ret, raise.
  cbn [log_proc fs]. rewrite Hrun.
  destruct (negb (returncode cp =? 0)%Z); cbn [fst snd set_fs fs];
    apply lookup_delete_ne; congruence.
Qed.

(** Once the segments are assembled, the encrypted file is removed
    whatever the engine does. *)
Lemma encrypted_file_removed_after_assembly song_id key_hex dest st
    k segs st1 enc_path st2 :
  normalise_key key_hex = Ok k ->
  fetch_stream_segments env song_id st = (Ok segs, st1) ->
  assemble_segments env segs st1 = (Ok enc_path, st2) ->
  fs (snd (download_drm_stream env song_id key_hex dest st)) !! enc_path = None.
Proof.
  intros Hk Hf Ha. unfold download_drm_stream, bind, lift_result.
  rewrite Hk, Hf, Ha.
  apply (decrypt_and_cleanup_spec env k enc_path dest st2).
Qed.

(** When the key is refused or the manifest cannot be had, no temporary
    file was created: nothing has changed. *)
Lemma nothing_created_before_assembly song_id key_hex dest st :
  normalise_key key_hex = Raise invalid_key
  \/ (exists e, fst (fetch_stream_segments env song_id st) = Raise e) ->
  snd (download_drm_stream env song_id key_hex dest st) = st.
Proof.
  unfold download_drm_stream, bind, lift_result.
  intros [-> | [e He]]; [reflexivity|].
  destruct (normalise_key key_hex); [|reflexivity].
  destruct (fetch_stream_segments_obeys env untouched untouched_refl
              untouched_trans song_id st) as [Hs _].
  destruct (fetch_stream_segments env song_id st) as [[segs|e1] st1];
    cbn [fst snd] in *; [discriminate | exact Hs].
Qed.

End AssemblyClaims.

Section AssemblyFailures.
Import Double.

(** C9 (the code departs from it). The init segment is answered with status
    404 and an error page: [assemble_segments] does not raise; it writes
    the error page in the place of the init segment and goes on with the
    media segments, and [download_drm_stream] hands the result to the
    engine and returns normally. *)
Theorem init_segment_error_page_is_assembled :
  let run := assemble_segments init_missing parsed_manifest start in
  fst run = Ok enc_path
  /\ fs (snd run) !! enc_path = Some (bytes "Not FoundSEG0SEG1")
  /\ fst (download_drm_stream init_missing song_id a_key m4a_dest start)
     = Ok tt.
Proof. repeat split. Qed.

(** C2 (the code departs from it). The second media segment is answered
    with status 500: [download_drm_stream] propagates the HTTP error
    without having run the engine, and the temporary encrypted file, with
    the init segment and the first media segment in it, is still there. *)
Theorem encrypted_file_left_after_segment_failure :
  let run := download_drm_stream seg1_down song_id a_key m4a_dest start in
  fst run = Raise (HTTPError 500)
  /\ fs (snd run) !! enc_path = Some (bytes "INITSEG0")
  /\ procs (snd run) = [].
Proof. repeat split. Qed.

(** The engine exits with status 1: the error is raised with the
    diagnostic of the engine, and the encrypted file is gone. *)
Lemma encrypted_file_removed_when_engine_fails :
  let run := download_drm_stream engine_fails song_id a_key m4a_dest start in
  fst run = Raise (RuntimeError "ffmpeg decryption failed: Invalid data")
  /\ fs (snd run) !! enc_path = None
  /\ length (procs (snd run)) = 1.
Proof. repeat split. Qed.

(** The same failure seen through [media_segment_failure_is_fatal]. *)
Lemma seg1_down_is_fatal :
  let run := assemble_segments seg1_down parsed_manifest start in
  fst run = Raise (HTTPError 500)
  /\ fs (snd run) !! enc_path = Some (bytes "INIT" ++ concat [bytes "SEG0"]).
Proof.
  apply (media_segment_failure_is_fatal seg1_down parsed_manifest
           (response 200 "INIT") ["seg0.m4s"] [bytes "SEG0"]
           "/media/seg1.m4s" [] (response 500 "Oops") start).
  - reflexivity.
  - reflexivity.
  - repeat constructor. exists (response 200 "SEG0"). repeat split.
  - reflexivity.
  - cbn. lia.
Qed.

End AssemblyFailures.

(** ** Claims on the orchestration *)

Section RoutingClaims.
Import PyStr.

Lemma direct_attempt_refused env info dest st :
  direct_refused env info -> direct_attempt env info dest st = (Ok false, st).
Proof.
  intros (resp & Hget & Hstatus).
  unfold direct_attempt, try_except, try_download_mp3, SESSION_get, bind.
  rewrite Hget. cbn [ret].
  replace ((status_code resp =? 403)%Z || (status_code resp =? 404)%Z)
    with true; [reflexivity|].
  destruct Hstatus as [-> | ->]; reflexivity.
Qed.

Lemma direct_attempt_unreachable env info dest st :
  direct_unreachable env info -> direct_attempt env info dest st = (Ok false, st).
Proof.
  intros (why & Hget).
  unfold direct_attempt, try_except, try_download_mp3, SESSION_get, bind.
  rewrite Hget. reflexivity.
Qed.

Lemma fetch_page_ok env url page st :
  http_get env url [] = Done page ->
  raise_for_status page = Ok tt ->
  fetch_page env url st = (Ok (text page), st).
Proof.
  intros Hget Hstatus. unfold fetch_page, SESSION_get, bind, lift_result.
  rewrite Hget. cbn [ret]. rewrite Hstatus. reflexivity.
Qed.

(** C8, as the code has it. Once the output directory is there, and the
    page and the metadata are resolved, a direct-source fetch answered
    with status 403 or 404 and a direct-source fetch that fails at the
    transport level are handled alike: the failure is caught, and the run
    goes on from the state the creation of the output directory left. It
    ends with exit status 1 on a Suno URL, and when the song identifier is
    empty or [Unknown]; otherwise it is the protected pipeline that runs:
    the determination of the key, then [download_drm_stream] to the
    [m4a] file under the output directory. With a key on the command
    line the run is [download_drm_stream] itself. *)
Theorem direct_failure_routing (env : Env) (args : Args) (info : SongInfo)
    (st st1 : State) :
  mkdir_parents (output_dir args) st = (Ok tt, st1) ->
  page_resolved env args info ->
  direct_refused env info \/ direct_unreachable env info ->
  let m4a_dest := Path.join (output_dir args)
                    (safe_filename (artist info) (title info) "m4a") in
  main env args st
  = (if String.eqb (detect_platform (args_url args)) "suno"
        || negb (truthy (id info)) || String.eqb (id info) "Unknown"
     then (Raise (SystemExit 1), st1)
     else (key_hex <- determine_key env args (id info) ;;
           download_drm_stream env (id info) key_hex m4a_dest)%py st1)
  /\ (forall key_hex,
        detect_platform (args_url args) <> "suno" ->
        truthy (id info) = true -> id info <> "Unknown" ->
        args_key args = Some key_hex -> truthy key_hex = true ->
        main env args st
        = download_drm_stream env (id info) key_hex m4a_dest st1).
Proof.
  intros Hmkdir (page & Hpage & Hstatus & Hinfo) Hdirect. cbv zeta.
  assert (Hmain : main env args st
    = if String.eqb (detect_platform (args_url args)) "suno"
      then (Raise (SystemExit 1), st1)
      else drm_fallback env args info st1).
  { unfold main. unfold bind at 1. rewrite Hmkdir.
    unfold bind at 1.
    rewrite (fetch_page_ok _ _ _ _ Hpage Hstatus).
    unfold lift_result. unfold bind at 1. rewrite Hinfo.
    unfold bind at 1.
    destruct Hdirect as [H|H];
      [rewrite (direct_attempt_refused _ _ _ _ H)
      |rewrite (direct_attempt_unreachable _ _ _ _ H)];
      destruct (String.eqb (detect_platform (args_url args)) "suno");
      reflexivity. }
  split.
  - rewrite Hmain. unfold drm_fallback.
    destruct (String.eqb (detect_platform (args_url args)) "suno");
      [reflexivity|].
    cbn [orb].
    destruct (negb (truthy (id info)) || String.eqb (id info) "Unknown");
      reflexivity.
  - intros key_hex Hplatform Hid Hknown Hkey Htruthy. rewrite Hmain.
    apply String.eqb_neq in Hplatform, Hknown. rewrite Hplatform.
    unfold drm_fallback. rewrite Hid, Hknown. cbn [negb orb].
    unfold determine_key, given. rewrite Hkey, Htruthy.
    reflexivity.
Qed.

Lemma direct_failure_routing_witness :
  mkdir_parents "out" Double.start = (Ok tt, add_dir "out" Double.start)
  /\ main (Double.healthy Double.not_found)
          (Double.args_with_key Double.page_url) Double.start
     = download_drm_stream (Double.healthy Double.not_found) Double.song_id
         Double.a_key Double.m4a_dest (add_dir "out" Double.start)
  /\ main (Double.healthy Double.unreachable)
          (Double.args_with_cdm Double.suno_url) Double.start
     = (Raise (SystemExit 1), add_dir "out" Double.start).
Proof.
  split; [reflexivity|]. split.
  - apply (proj2 (direct_failure_routing (Double.healthy Double.not_found)
             (Double.args_with_key Double.page_url) Double.info Double.start
             (add_dir "out" Double.start) eq_refl
             (ex_intro _ (Double.response 200 "<html>")
                (conj eq_refl (conj eq_refl eq_refl)))
             (or_introl (ex_intro _ (Double.response 404 "Not Found")
                           (conj eq_refl (or_intror eq_refl)))))
             Double.a_key); try reflexivity; discriminate.
  - apply (proj1 (direct_failure_routing (Double.healthy Double.unreachable)
             (Double.args_with_cdm Double.suno_url) Double.info Double.start
             (add_dir "out" Double.start) eq_refl
             (ex_intro _ (Double.response 200 "<html>")
                (conj eq_refl (conj eq_refl eq_refl)))
             (or_intror (ex_intro _ "Connection refused" eq_refl)))).
Defined.

(** C8, as stated, fails on both counts. A transport failure of the direct
    attempt is not propagated: the run falls back to the protected
    pipeline and ends normally with the decrypted file saved. And on a
    Suno URL a 404 of the direct source ends the run with exit status 1,
    without the protected pipeline. *)
Lemma transport_failure_falls_back :
  http_get (Double.healthy Double.unreachable) Double.mp3_url []
  = Failed "Connection refused"
  /\ (let run := main (Double.healthy Double.unreachable)
                   (Double.args_with_key Double.page_url) Double.start in
      fst run = Ok tt
      /\ fs (snd run) !! Double.m4a_dest = Some (Double.bytes "DECRYPTED")
      /\ length (procs (snd run)) = 1)
  /\ (let run := main (Double.healthy Double.not_found)
                   (Double.args_with_key Double.suno_url) Double.start in
      fst run = Raise (SystemExit 1) /\ procs (snd run) = []).
Proof. repeat split. Qed.

End RoutingClaims.

(** * Further properties of the code *)

(** ** Platform detection and file names *)

Section Names.
Import PyStr.

Lemma append_cons c s t : String c s +:+ t = String c (s +:+ t).
Proof. reflexivity. Qed.

Lemma append_nil t : EmptyString +:+ t = t.
Proof. reflexivity. Qed.

Lemma startswith_app s t : startswith (t +:+ s) t = true.
Proof.
  induction t as [|c t IH]; [reflexivity|].
  rewrite append_cons. cbn [startswith]. rewrite Ascii.eqb_refl. exact IH.
Qed.

Lemma startswith_split s t :
  startswith s t = true -> exists post, s = t +:+ post.
Proof.
  revert s. induction t as [|c t IH]; intros s H.
  - exists s. reflexivity.
  - destruct s as [|d s]; [discriminate|]. cbn [startswith] in H.
    apply andb_true_iff in H as [Hc Ht]. apply Ascii.eqb_eq in Hc. subst d.
    destruct (IH _ Ht) as [post ->]. exists post. reflexivity.
Qed.

Lemma contains_spec s t :
  contains s t = true <-> exists pre post, s = pre +:+ t +:+ post.
Proof.
  split.
  - induction s as [|c s IH]; cbn [contains]; intros H.
    + rewrite orb_false_r in H. apply startswith_split in H as [post ->].
      exists EmptyString, post. reflexivity.
    + apply orb_true_iff in H as [H|H].
      * apply startswith_split in H as [post ->].
        exists EmptyString, post. reflexivity.
      * destruct (IH H) as (pre & post & ->).
        exists (String c pre), post. reflexivity.
  - intros (pre & post & ->).
    induction pre as [|c pre IH].
    + rewrite append_nil.
      destruct (t +:+ post) eqn:E; cbn [contains];
        rewrite <- E, startswith_app; reflexivity.
    + rewrite append_cons. cbn [contains]. rewrite IH. apply orb_true_r.
Qed.

(** [detect_platform] answers "suno" exactly for the URLs in which
    "suno.com" occurs somewhere, and "other" for all the others. *)
Theorem detect_platform_spec (url : string) :
  (detect_platform url = "suno"
   <-> exists pre post, url = pre +:+ "suno.com" +:+ post)
  /\ (detect_platform url = "suno" \/ detect_platform url = "other").
Proof.
  unfold detect_platform. rewrite <- contains_spec.
  destruct (contains url "suno.com"); split; auto; split; congruence.
Qed.

Lemma unsafe_underscore : unsafe_char "_" = false.
Proof. reflexivity. Qed.

Lemma map_chars_length f s : String.length (map_chars f s) = String.length s.
Proof. induction s as [|c s IH]; cbn [map_chars String.length]; congruence. Qed.

Lemma map_chars_all_safe s :
  all_chars (fun c => negb (unsafe_char c))
            (map_chars (fun c => if unsafe_char c then "_"%char else c) s)
  = true.
Proof.
  induction s as [|c s IH]; [reflexivity|]. cbn [map_chars all_chars].
  rewrite IH, andb_true_r.
  destruct (unsafe_char c) eqn:Hc; [reflexivity | rewrite Hc; reflexivity].
Qed.

Lemma string_length_app s t :
  String.length (s +:+ t) = String.length s + String.length t.
Proof.
  induction s as [|c s IH]; [reflexivity|].
  rewrite append_cons. cbn [String.length]. rewrite IH. reflexivity.
Qed.

(** The name [safe_filename] builds holds no character that is forbidden
    in file names (no path separator, no quote, no control character, ...),
    and has the length of "artist - title.ext". *)
Theorem safe_filename_is_safe (artist title ext : string) :
  all_chars (fun c => negb (unsafe_char c)) (safe_filename artist title ext) = true
  /\ String.length (safe_filename artist title ext)
     = String.length artist + 3 + String.length title + 1 + String.length ext.
Proof.
  unfold safe_filename. split; [apply map_chars_all_safe|].
  rewrite map_chars_length, !string_length_app. cbn [String.length]. lia.
Qed.

Lemma all_chars_app p s t :
  all_chars p (s +:+ t) = all_chars p s && all_chars p t.
Proof.
  induction s as [|c s IH]; [reflexivity|].
  rewrite append_cons. cbn [all_chars]. rewrite IH. apply andb_assoc.
Qed.

Lemma map_chars_safe_id s :
  all_chars (fun c => negb (unsafe_char c)) s = true ->
  map_chars (fun c => if unsafe_char c then "_"%char else c) s = s.
Proof.
  induction s as [|c s IH]; [reflexivity|]. cbn [all_chars map_chars].
  intros [Hc Hs]%andb_true_iff. apply negb_true_iff in Hc.
  rewrite Hc, IH by assumption. reflexivity.
Qed.

(** When the artist, the title and the extension hold no forbidden
    character, [safe_filename] is plain concatenation: such names are not
    altered. *)
Theorem safe_filename_keeps_safe_names (artist title ext : string) :
  all_chars (fun c => negb (unsafe_char c)) artist = true ->
  all_chars (fun c => negb (unsafe_char c)) title = true ->
  all_chars (fun c => negb (unsafe_char c)) ext = true ->
  safe_filename artist title ext = artist +:+ " - " +:+ title +:+ "." +:+ ext.
Proof.
  intros Ha Ht He. unfold safe_filename. apply map_chars_safe_id.
  rewrite !all_chars_app, Ha, Ht, He. reflexivity.
Qed.

Lemma safe_filename_keeps_safe_names_witness :
  safe_filename "Band" "Song" "m4a" = "Band - Song.m4a".
Proof.
  apply (safe_filename_keeps_safe_names "Band" "Song" "m4a"); reflexivity.
Defined.

End Names.

Lemma detect_platform_spec_witness :
  detect_platform Double.suno_url = "suno".
Proof.
  apply (proj1 (detect_platform_spec Double.suno_url)).
  exists "https://", "/song/ab12-cd34". reflexivity.
Defined.

(** ** More on the manifest *)

Section ManifestInvariants.
Import PyStr.

(** The URI lines of a document, stripped, in document order. *)
Lemma scan_loop_sublist lines flag uris :
  exists captured,
    snd (scan_loop lines (flag, uris)) = uris ++ captured
    /\ sublist captured (map strip (List.filter is_uri_line lines))
    /\ length captured
       <= length (List.filter is_announcement lines) + (if flag then 1 else 0).
Proof.
  revert flag uris. induction lines as [|l lines IH]; intros flag uris.
  - exists []. cbn. rewrite app_nil_r. repeat split; [constructor | lia].
  - cbn [scan_loop List.filter].
    destruct (is_announcement l) eqn:Ha.
    + rewrite scan_step_announcement by assumption.
      rewrite (announcement_is_comment l Ha).
      destruct (IH true uris) as (captured & Hs & Hsub & Hlen).
      exists captured. cbn [length]. repeat split; [assumption..|].
      destruct flag; lia.
    + destruct (is_uri_line l) eqn:Hu.
      * destruct flag.
        -- rewrite scan_step_capture by assumption.
           destruct (IH false (uris ++ [strip l])) as (captured & Hs & Hsub & Hlen).
           exists (strip l :: captured). rewrite Hs, <- app_assoc.
           cbn [map length app]. repeat split; [|lia].
           apply sublist_skip. assumption.
        -- rewrite scan_step_idle by assumption.
           destruct (IH false uris) as (captured & Hs & Hsub & Hlen).
           exists captured. cbn [map]. repeat split; [assumption| |lia].
           apply sublist_cons. assumption.
      * rewrite scan_step_metadata
          by (unfold is_metadata; rewrite Ha, Hu; reflexivity).
        destruct (IH flag uris) as (captured & Hs & Hsub & Hlen).
        exists captured. repeat split; assumption.
Qed.

(** Whatever the manifest, the media segments the scanner returns are a
    subsequence, in document order, of its non-blank, non-comment lines
    (stripped), and there are no more of them than there are announcement
    lines. *)
Theorem scanned_uris_are_announced_lines (manifest : string) :
  sublist (scan_segment_uris manifest)
          (map strip (List.filter is_uri_line (splitlines manifest)))
  /\ length (scan_segment_uris manifest)
     <= length (List.filter is_announcement (splitlines manifest)).
Proof.
  unfold scan_segment_uris.
  destruct (scan_loop_sublist (splitlines manifest) false [])
    as (captured & -> & Hsub & Hlen).
  cbn [app]. split; [assumption | lia].
Qed.

Lemma take_while_all p s : all_chars p (take_while p s) = true.
Proof.
  induction s as [|c s IH]; [reflexivity|]. cbn [take_while].
  destruct (p c) eqn:Hc; [|reflexivity]. cbn [all_chars]. rewrite Hc. exact IH.
Qed.

(** A match of [Re.search] is a non-empty run of the character class. *)
Lemma search_class literal class closing s g :
  Re.search literal class closing s = Some g ->
  truthy g = true /\ all_chars class g = true.
Proof.
  induction s as [|c s IH]; cbn [Re.search]; unfold Re.match_here.
  - destruct (after_prefix literal EmptyString) as [r|]; [|discriminate].
    destruct (truthy (take_while class r)) eqn:Ht; [|discriminate].
    destruct closing.
    + destruct (drop_while class r) as [|d r']; [discriminate|].
      destruct (Ascii.eqb d dquote); [|discriminate].
      intros [= <-]. split; [assumption | apply take_while_all].
    + intros [= <-]. split; [assumption | apply take_while_all].
  - destruct (after_prefix literal (String c s)) as [r|]; [|exact IH].
    destruct (truthy (take_while class r)) eqn:Ht; [|exact IH].
    destruct closing.
    + destruct (drop_while class r) as [|d r']; [exact IH|].
      destruct (Ascii.eqb d dquote); [|exact IH].
      intros [= <-]. split; [assumption | apply take_while_all].
    + intros [= <-]. split; [assumption | apply take_while_all].
Qed.

Lemma remove_char_gone x s : char_in x (remove_char x s) = false.
Proof.
  induction s as [|c s IH]; [reflexivity|]. cbn [remove_char].
  destruct (Ascii.eqb c x) eqn:Hc; [exact IH|].
  cbn [char_in]. rewrite IH, orb_false_r, Ascii.eqb_sym. exact Hc.
Qed.

Lemma lower_hex_no_dash s :
  all_chars is_lower_hex s = true -> char_in "-" s = false.
Proof.
  induction s as [|c s IH]; [reflexivity|]. cbn [all_chars char_in].
  intros [Hc Hs]%andb_true_iff. rewrite (IH Hs), orb_false_r.
  destruct (Ascii.eqb "-" c) eqn:E; [|reflexivity].
  apply Ascii.eqb_eq in E. subst c. discriminate.
Qed.

Lemma lower_truthy s : truthy (lower s) = truthy s.
Proof. destruct s; reflexivity. Qed.

(** The key identifier of a parsed manifest is either a non-empty string of
    lower-case hexadecimal digits (the KEYID attribute of the manifest,
    lower-cased), or the track identifier with its dashes removed; in
    both cases it holds no dash. The init segment reference is never
    empty. *)
Theorem parsed_key_id_shape (song_id manifest : string) (m : StreamManifest) :
  parse_manifest song_id manifest = Ok m ->
  ((truthy (key_id m) = true /\ all_chars is_lower_hex (key_id m) = true)
   \/ key_id m = remove_char "-" song_id)
  /\ char_in "-" (key_id m) = false
  /\ truthy (init_uri m) = true.
Proof.
  unfold parse_manifest.
  destruct (scan_segment_uris manifest) as [|u us]; [discriminate|].
  intros [= <-]. cbn [key_id init_uri].
  assert (Hkey :
    (truthy match Re.search "KEYID=0x" Re.hex_class false manifest with
            | Some g => lower g | None => remove_char "-" song_id end = true
     /\ all_chars is_lower_hex
          match Re.search "KEYID=0x" Re.hex_class false manifest with
          | Some g => lower g | None => remove_char "-" song_id end = true)
    \/ match Re.search "KEYID=0x" Re.hex_class false manifest with
       | Some g => lower g | None => remove_char "-" song_id end
       = remove_char "-" song_id).
  { destruct (Re.search "KEYID=0x" Re.hex_class false manifest) as [g|] eqn:Hs;
      [left | right; reflexivity].
    apply search_class in Hs as [Ht Hall]. split.
    - rewrite lower_truthy. exact Ht.
    - unfold is_lower_hex. rewrite lower_all_hex. exact Hall. }
  split; [exact Hkey|]. split.
  - destruct Hkey as [[_ Hall] | ->];
      [apply lower_hex_no_dash; exact Hall | apply remove_char_gone].
  - destruct (Re.search _ Re.not_quote true manifest) as [g|] eqn:Hs.
    + apply search_class in Hs. tauto.
    + reflexivity.
Qed.

Lemma parsed_key_id_shape_witness :
  all_chars is_lower_hex (key_id Double.parsed_manifest) = true
  \/ key_id Double.parsed_manifest = remove_char "-" Double.song_id.
Proof.
  destruct (parsed_key_id_shape Double.song_id Double.manifest
              Double.parsed_manifest eq_refl) as ([[_ H] | H] & _ & _);
    [left | right]; exact H.
Defined.

End ManifestInvariants.

(** ** Paths *)

Section Paths.
Import PyStr.

Lemma char_in_cons c d r :
  char_in c (String d r) = Ascii.eqb d c || char_in c r.
Proof. cbn [char_in]. rewrite Ascii.eqb_sym. reflexivity. Qed.

Lemma char_in_app c s t : char_in c (s +:+ t) = char_in c s || char_in c t.
Proof.
  induction s as [|d s IH]; [reflexivity|].
  rewrite append_cons. cbn [char_in]. rewrite IH. apply orb_assoc.
Qed.

Lemma pieces_not_nil s : Path.pieces s <> [].
Proof.
  destruct s as [|c r]; cbn [Path.pieces]; [discriminate|].
  destruct (Ascii.eqb c Path.slash); [discriminate|].
  destruct (Path.pieces r); discriminate.
Qed.

Lemma pieces_no_slash s :
  Forall (fun p => char_in Path.slash p = false) (Path.pieces s).
Proof.
  induction s as [|c r IH]; cbn [Path.pieces].
  - constructor; [reflexivity | constructor].
  - destruct (Ascii.eqb c Path.slash) eqn:E.
    + constructor; [reflexivity | exact IH].
    + destruct (Path.pieces r) as [|p ps].
      * constructor; [|constructor]. rewrite char_in_cons, E. reflexivity.
      * inversion IH as [|? ? Hp Hps]; subst.
        constructor; [|exact Hps]. rewrite char_in_cons, E. exact Hp.
Qed.

Lemma pieces_simple n : char_in Path.slash n = false -> Path.pieces n = [n].
Proof.
  induction n as [|c r IH]; [reflexivity|].
  rewrite char_in_cons. intros [E Hr]%orb_false_iff.
  cbn [Path.pieces]. rewrite E, (IH Hr). reflexivity.
Qed.

Lemma pieces_app_slash a b :
  Path.pieces (a +:+ String Path.slash b) = Path.pieces a ++ Path.pieces b.
Proof.
  induction a as [|c a IH].
  - rewrite append_nil. cbn [Path.pieces]. rewrite Ascii.eqb_refl. reflexivity.
  - rewrite append_cons. cbn [Path.pieces]. rewrite IH.
    destruct (Ascii.eqb c Path.slash); [reflexivity|].
    destruct (Path.pieces a) as [|p ps] eqn:E;
      [exfalso; exact (pieces_not_nil a E) | reflexivity].
Qed.

Lemma concat_cons2 p q r :
  String.concat "/" (p :: q :: r)
  = p +:+ String Path.slash (String.concat "/" (q :: r)).
Proof. reflexivity. Qed.

Lemma pieces_concat ps :
  Forall (fun p => char_in Path.slash p = false) ps -> ps <> [] ->
  Path.pieces (String.concat "/" ps) = ps.
Proof.
  induction ps as [|p ps IH]; [congruence|]. intros H _.
  inversion H as [|? ? Hp Hps]; subst.
  destruct ps as [|q r]; [apply pieces_simple, Hp|].
  rewrite concat_cons2, pieces_app_slash, (pieces_simple p Hp), IH;
    [reflexivity | exact Hps | discriminate].
Qed.

Lemma root_of_cases s :
  Path.root_of s = "" \/ Path.root_of s = "/" \/ Path.root_of s = "//".
Proof.
  destruct s as [|a [|b [|c r]]]; cbn [Path.root_of]; auto;
    destruct (Ascii.eqb a Path.slash); auto;
    destruct (Ascii.eqb b Path.slash); auto;
    destruct (Ascii.eqb c Path.slash); auto.
Qed.

Lemma simple_name_spec n :
  simple_name n = true
  <-> Path.is_part n = true /\ char_in Path.slash n = false.
Proof.
  unfold simple_name. rewrite andb_true_iff, negb_true_iff. reflexivity.
Qed.

Lemma filter_parts_simple l :
  Forall (fun p => char_in Path.slash p = false) l ->
  Forall (fun p => simple_name p = true) (List.filter Path.is_part l).
Proof.
  induction 1 as [|p l Hp _ IH]; cbn [List.filter]; [constructor|].
  destruct (Path.is_part p) eqn:E; [|exact IH].
  constructor; [|exact IH]. apply simple_name_spec. split; assumption.
Qed.

Lemma filter_parts_id l :
  Forall (fun p => simple_name p = true) l -> List.filter Path.is_part l = l.
Proof.
  induction 1 as [|p l Hp _ IH]; cbn [List.filter]; [reflexivity|].
  apply simple_name_spec in Hp. destruct Hp as [-> _]. rewrite IH.
  reflexivity.
Qed.

(** Whatever the string, [pathlib] keeps it in normal form. *)
Lemma parse_normal s : normal (Path.parse s).
Proof.
  split; cbn [Path.parse Path.root Path.parts].
  - apply root_of_cases.
  - apply filter_parts_simple, pieces_no_slash.
Qed.

Lemma startswith_slash c r :
  startswith (String c r) "/" = Ascii.eqb c Path.slash.
Proof.
  cbn [startswith]. rewrite andb_true_r. apply Ascii.eqb_sym.
Qed.

Lemma simple_no_leading_slash n :
  simple_name n = true -> startswith n "/" = false.
Proof.
  intros [_ H]%simple_name_spec. destruct n as [|c r]; [reflexivity|].
  rewrite char_in_cons in H. apply orb_false_iff in H. destruct H as [E _].
  rewrite startswith_slash. exact E.
Qed.

Lemma concat_no_leading_slash ps :
  Forall (fun p => simple_name p = true) ps ->
  startswith (String.concat "/" ps) "/" = false.
Proof.
  intros H. destruct H as [|p ps Hp Hps]; [reflexivity|].
  pose proof (simple_no_leading_slash p Hp) as Hs.
  apply simple_name_spec in Hp. destruct Hp as [Hpart _].
  destruct p as [|c r]; [discriminate Hpart|].
  destruct ps as [|q l]; [exact Hs|].
  rewrite concat_cons2, append_cons. rewrite startswith_slash in *. exact Hs.
Qed.

Lemma root_of_rendered r body :
  r = "" \/ r = "/" \/ r = "//" ->
  startswith body "/" = false ->
  Path.root_of (r +:+ body) = r.
Proof.
  intros Hr Hbody.
  assert (Hfirst : match body with
                   | String c _ => Ascii.eqb c Path.slash = false
                   | EmptyString => True
                   end).
  { destruct body as [|c b]; [exact I|].
    rewrite startswith_slash in Hbody. exact Hbody. }
  destruct Hr as [-> | [-> | ->]].
  - rewrite append_nil. destruct body as [|c b]; [reflexivity|].
    cbn [Path.root_of]. rewrite Hfirst. reflexivity.
  - destruct body as [|c b]; [reflexivity|].
    change (Path.root_of (String Path.slash (String c b)) = "/").
    cbn [Path.root_of]. rewrite Ascii.eqb_refl, Hfirst. reflexivity.
  - destruct body as [|c b]; [reflexivity|].
    change (Path.root_of (String Path.slash (String Path.slash (String c b)))
            = "//").
    cbn [Path.root_of]. rewrite Ascii.eqb_refl, Hfirst. reflexivity.
Qed.

Lemma parts_of_rendered r ps :
  r = "" \/ r = "/" \/ r = "//" ->
  Forall (fun p => simple_name p = true) ps -> ps <> [] ->
  List.filter Path.is_part (Path.pieces (r +:+ String.concat "/" ps)) = ps.
Proof.
  intros Hr Hps Hne.
  assert (Hpieces : Path.pieces (String.concat "/" ps) = ps).
  { apply pieces_concat; [|exact Hne].
    eapply Forall_impl; [exact Hps|]. intros p Hp.
    apply simple_name_spec in Hp. tauto. }
  destruct Hr as [-> | [-> | ->]].
  - rewrite append_nil, Hpieces. apply filter_parts_id, Hps.
  - change ("/" +:+ String.concat "/" ps)
      with (EmptyString +:+ String Path.slash (String.concat "/" ps)).
    rewrite pieces_app_slash, Hpieces. cbn [Path.pieces app List.filter].
    apply filter_parts_id, Hps.
  - change ("//" +:+ String.concat "/" ps)
      with ("/" +:+ String Path.slash (String.concat "/" ps)).
    rewrite pieces_app_slash, Hpieces.
    change (List.filter Path.is_part (["" ; ""] ++ ps) = ps).
    cbn [app List.filter]. apply filter_parts_id, Hps.
Qed.

(** Parsing the string of a path in normal form gives the path back. *)
Lemma parse_render x : normal x -> Path.parse (Path.render x) = x.
Proof.
  destruct x as [r ps]. intros [Hr Hps]. cbn [Path.root Path.parts] in *.
  destruct ps as [|p ps].
  - destruct Hr as [-> | [-> | ->]]; reflexivity.
  - assert (Hrender : Path.render {| Path.root := r; Path.parts := p :: ps |}
                      = r +:+ String.concat "/" (p :: ps)).
    { unfold Path.render. cbn [Path.root Path.parts].
      destruct r; reflexivity. }
    rewrite Hrender. unfold Path.parse.
    rewrite (root_of_rendered r _ Hr (concat_no_leading_slash _ Hps)).
    rewrite (parts_of_rendered r _ Hr Hps) by discriminate.
    reflexivity.
Qed.

Lemma parse_of_string s : Path.parse (Path.of_string s) = Path.parse s.
Proof. apply parse_render, parse_normal. Qed.

(** [Path(str(Path(s)))] is [Path(s)]. *)
Lemma of_string_idem s : Path.of_string (Path.of_string s) = Path.of_string s.
Proof. unfold Path.of_string at 1 3. rewrite parse_of_string. reflexivity. Qed.

Lemma append_assoc_string a b c : (a +:+ b) +:+ c = a +:+ (b +:+ c).
Proof.
  induction a as [|x a IH]; [reflexivity|].
  rewrite !append_cons, IH. reflexivity.
Qed.

Lemma ends_with_slash_split d :
  Path.ends_with_slash d = true -> exists d', d = d' +:+ "/".
Proof.
  induction d as [|c r IH]; [discriminate|].
  destruct r as [|c2 r'].
  - cbn [Path.ends_with_slash]. intros E. apply Ascii.eqb_eq in E. subst c.
    exists EmptyString. reflexivity.
  - intros H. destruct (IH H) as [d' Hd']. exists (String c d').
    rewrite append_cons, <- Hd'. reflexivity.
Qed.

Lemma root_of_app d t :
  d <> "" ->
  (Path.ends_with_slash d = true -> startswith t "/" = false) ->
  Path.root_of (d +:+ t) = Path.root_of d.
Proof.
  intros Hd Ht.
  assert (Hfirst : Path.ends_with_slash d = true ->
                   match t with
                   | String c _ => Ascii.eqb c Path.slash = false
                   | EmptyString => True
                   end).
  { intros H. specialize (Ht H). destruct t as [|c t']; [exact I|].
    rewrite startswith_slash in Ht. exact Ht. }
  clear Ht.
  destruct d as [|a [|b [|c r]]]; [congruence| | |].
  - rewrite append_cons, append_nil. cbn [Path.root_of Path.ends_with_slash] in *.
    destruct (Ascii.eqb a Path.slash); [|reflexivity].
    specialize (Hfirst eq_refl). destruct t as [|c t']; [reflexivity|].
    rewrite Hfirst. reflexivity.
  - rewrite !append_cons, append_nil.
    cbn [Path.root_of Path.ends_with_slash] in *.
    destruct (Ascii.eqb a Path.slash); [|reflexivity].
    destruct (Ascii.eqb b Path.slash); [|reflexivity].
    specialize (Hfirst eq_refl). destruct t as [|c t']; [reflexivity|].
    rewrite Hfirst. reflexivity.
  - rewrite !append_cons. reflexivity.
Qed.

Lemma filter_parts_snoc l n :
  simple_name n = true ->
  List.filter Path.is_part (l ++ [n]) = List.filter Path.is_part l ++ [n].
Proof.
  intros [Hn _]%simple_name_spec. rewrite List.filter_app.
  cbn [List.filter]. rewrite Hn. reflexivity.
Qed.

(** Joining a simple name to a path adds it as the last component. *)
Lemma parse_posix_join d n :
  simple_name n = true ->
  Path.parse (Path.posix_join d n) = child (Path.parse d) n.
Proof.
  intros Hn. pose proof Hn as [Hpart Hslash]%simple_name_spec.
  unfold Path.posix_join, child, Path.parse. cbn [Path.root Path.parts].
  rewrite (simple_no_leading_slash n Hn).
  destruct d as [|c d'].
  - cbn [truthy negb orb]. rewrite append_nil.
    rewrite (pieces_simple n Hslash). cbn [Path.pieces List.filter app].
    rewrite Hpart.
    rewrite <- (append_nil n) at 1.
    rewrite (root_of_rendered "" n (or_introl eq_refl)
               (simple_no_leading_slash n Hn)).
    reflexivity.
  - cbn [truthy negb orb]. set (d := String c d').
    destruct (Path.ends_with_slash d) eqn:E.
    + rewrite (root_of_app d n ltac:(discriminate)
                 (fun _ => simple_no_leading_slash n Hn)).
      destruct (ends_with_slash_split d E) as [p Hp]. rewrite Hp.
      rewrite append_assoc_string.
      change ("/" +:+ n) with (String Path.slash n).
      change (p +:+ "/") with (p +:+ String Path.slash EmptyString).
      rewrite !pieces_app_slash, (pieces_simple n Hslash).
      cbn [Path.pieces]. rewrite !(filter_parts_snoc _ n Hn).
      rewrite List.filter_app. cbn [List.filter]. rewrite app_nil_r.
      reflexivity.
    + change (d +:+ "/" +:+ n) with (d +:+ String Path.slash n).
      rewrite (root_of_app d (String Path.slash n) ltac:(discriminate)
                 ltac:(congruence)).
      rewrite pieces_app_slash, (pieces_simple n Hslash).
      rewrite (filter_parts_snoc _ n Hn). reflexivity.
Qed.

Lemma child_normal x n : normal x -> simple_name n = true -> normal (child x n).
Proof.
  intros [Hr Hps] Hn. split; [exact Hr|]. cbn [child Path.parts].
  apply Forall_app. split; [exact Hps|]. constructor; [exact Hn | constructor].
Qed.

Lemma parse_join d n :
  simple_name n = true ->
  Path.parse (Path.join d n) = child (Path.parse d) n.
Proof.
  intros Hn. unfold Path.join. rewrite parse_of_string.
  apply parse_posix_join, Hn.
Qed.

(** [(d / n).parent] is [d], for a simple name [n]. *)
Lemma parent_join d n :
  simple_name n = true -> Path.parent (Path.join d n) = Path.of_string d.
Proof.
  intros Hn. unfold Path.parent, Path.of_string. rewrite (parse_join d n Hn).
  cbn [child Path.root Path.parts]. rewrite removelast_last.
  destruct (Path.parse d); reflexivity.
Qed.

(** [(d / n).name] is [n], for a simple name [n]. *)
Lemma name_join d n : simple_name n = true -> Path.name (Path.join d n) = n.
Proof.
  intros Hn. unfold Path.name. rewrite (parse_join d n Hn).
  cbn [child Path.parts]. apply last_last.
Qed.

Lemma parent_child x n :
  normal x -> simple_name n = true ->
  Path.parent (Path.render (child x n)) = Path.render x.
Proof.
  intros Hx Hn. unfold Path.parent.
  rewrite (parse_render _ (child_normal x n Hx Hn)).
  cbn [child Path.root Path.parts]. rewrite removelast_last.
  destruct x; reflexivity.
Qed.

Lemma substring_no_char c k n :
  char_in c n = false -> char_in c (substring 0 k n) = false.
Proof.
  revert k. induction n as [|d r IH]; intros k H.
  - destruct k; reflexivity.
  - destruct k as [|k]; [reflexivity|]. cbn [substring].
    cbn [char_in] in *. apply orb_false_iff in H. destruct H as [-> Hr].
    apply IH, Hr.
Qed.

Lemma long_name_is_part s : 2 <= String.length s -> Path.is_part s = true.
Proof.
  destruct s as [|a [|b r]]; cbn [String.length]; [lia | lia |]. intros _.
  unfold Path.is_part. cbn [truthy andb]. apply negb_true_iff.
  apply String.eqb_neq. discriminate.
Qed.

(** The name of the part file is a simple name when the name is. *)
Lemma part_name_simple n :
  char_in Path.slash n = false ->
  simple_name (Path.name_stem n +:+ ".mp3.part") = true.
Proof.
  intros Hn. apply simple_name_spec. split.
  - apply long_name_is_part. rewrite string_length_app. cbn [String.length].
    lia.
  - rewrite char_in_app. unfold Path.name_stem.
    rewrite (substring_no_char _ _ n Hn). reflexivity.
Qed.

Lemma with_suffix_join d n sfx :
  simple_name n = true ->
  Path.with_suffix (Path.join d n) sfx
  = Ok (Path.render (child (Path.parse d) (Path.name_stem n +:+ sfx))).
Proof.
  intros Hn. unfold Path.with_suffix. rewrite (parse_join d n Hn).
  cbn [child Path.root Path.parts]. rewrite last_last, removelast_last.
  apply simple_name_spec in Hn. destruct Hn as [Hpart _].
  unfold Path.is_part in Hpart. apply andb_true_iff in Hpart.
  destruct Hpart as [-> _]. reflexivity.
Qed.

(** A download to a simple name under [d] goes through a part file that
    is under [d] too. *)
Lemma download_place d n :
  simple_name n = true ->
  exists part,
    Path.with_suffix (Path.join d n) ".mp3.part" = Ok part
    /\ Path.parent part = Path.of_string d
    /\ Path.parent (Path.join d n) = Path.of_string d.
Proof.
  intros Hn. eexists. split; [apply with_suffix_join, Hn|].
  split; [|apply parent_join, Hn].
  apply parent_child; [apply parse_normal|].
  apply part_name_simple. apply simple_name_spec in Hn. tauto.
Qed.

Lemma safe_char_not_slash c :
  unsafe_char c = false -> Ascii.eqb c Path.slash = false.
Proof.
  intros H. destruct (Ascii.eqb c Path.slash) eqn:E; [|reflexivity].
  apply Ascii.eqb_eq in E. subst c. discriminate H.
Qed.

Lemma all_safe_no_slash s :
  all_chars (fun c => negb (unsafe_char c)) s = true ->
  char_in Path.slash s = false.
Proof.
  induction s as [|c s IH]; [reflexivity|]. cbn [all_chars].
  intros [Hc Hs]%andb_true_iff. apply negb_true_iff in Hc.
  rewrite char_in_cons, (safe_char_not_slash c Hc), (IH Hs). reflexivity.
Qed.

(** The names [safe_filename] builds are simple names. *)
Lemma safe_filename_simple artist title ext :
  simple_name (safe_filename artist title ext) = true.
Proof.
  apply simple_name_spec. split.
  - apply long_name_is_part. unfold safe_filename.
    rewrite map_chars_length, !string_length_app. cbn [String.length]. lia.
  - apply all_safe_no_slash, map_chars_all_safe.
Qed.

(** *** Directories *)

Lemma is_dir_add_dir d s p :
  is_dir (add_dir d s) p = true <-> is_dir s p = true \/ p = d.
Proof.
  unfold is_dir, add_dir. cbn [dirs].
  rewrite !orb_true_iff, !bool_decide_eq_true, elem_of_union,
    elem_of_singleton.
  tauto.
Qed.

Lemma mkdir_chain_ok ds : forall st st1,
  mkdir_chain ds st = (Ok tt, st1) ->
  Forall (fun d => is_dir st1 d = true) ds
  /\ fs st1 = fs st /\ cdm_calls st1 = cdm_calls st /\ procs st1 = procs st
  /\ (forall d, is_dir st d = true -> is_dir st1 d = true)
  /\ (forall d, is_dir st1 d = true -> is_dir st d = true \/ In d ds).
Proof.
  induction ds as [|d rest IH]; intros st st1; cbn [mkdir_chain].
  - intros [= <-]. split; [constructor|]. auto 10.
  - unfold bind at 1. unfold gets at 1.
    destruct (is_dir st d) eqn:Hd.
    + intros H. destruct (IH _ _ H) as (Hall & Hfs & Hc & Hp & Hmono & Hnew).
      split; [constructor; [apply Hmono, Hd | exact Hall]|].
      split; [exact Hfs|]. split; [exact Hc|]. split; [exact Hp|].
      split; [exact Hmono|].
      intros p Hp1. destruct (Hnew p Hp1); [left | right; right]; assumption.
    + unfold bind at 1. unfold gets at 1.
      destruct (is_file st d); [discriminate|].
      unfold bind at 1. unfold modify at 1. intros H.
      destruct (IH _ _ H) as (Hall & Hfs & Hc & Hp & Hmono & Hnew).
      assert (Hhere : is_dir st1 d = true).
      { apply Hmono, is_dir_add_dir. right. reflexivity. }
      split; [constructor; [exact Hhere | exact Hall]|].
      split; [exact Hfs|]. split; [exact Hc|]. split; [exact Hp|].
      split.
      * intros p Hp0. apply Hmono, is_dir_add_dir. left. exact Hp0.
      * intros p Hp1. destruct (Hnew p Hp1) as [H0 | H0].
        -- apply is_dir_add_dir in H0. destruct H0 as [H0 | ->];
             [left; exact H0 | right; left; reflexivity].
        -- right. right. exact H0.
Qed.

Lemma inits_self {A} (l : list A) : l <> [] -> In l (Path.inits l).
Proof.
  induction l as [|x l IH]; [congruence|]. intros _. cbn [Path.inits].
  destruct l as [|y l]; [left; reflexivity|]. right.
  apply in_map, IH. discriminate.
Qed.

Lemma of_string_is_dir_or_listed s p :
  is_dir s (Path.of_string p) = true \/ In (Path.of_string p) (Path.lineage p).
Proof.
  destruct (Path.parts (Path.parse p)) as [|x l] eqn:E.
  - left. unfold is_dir. rewrite parse_of_string, E. reflexivity.
  - right. unfold Path.lineage, Path.of_string. cbv zeta.
    set (f := fun ps => Path.render
                {| Path.root := Path.root (Path.parse p); Path.parts := ps |}).
    assert (Hf : Path.render (Path.parse p) = f (Path.parts (Path.parse p)))
      by (subst f; destruct (Path.parse p); reflexivity).
    rewrite Hf. apply in_map, inits_self. rewrite E. discriminate.
Qed.

(** When [p.mkdir(parents=True, exist_ok=True)] returns, [p] is a
    directory; the files are as they were, and so are the directories
    that were there. *)
Lemma mkdir_parents_ok p st st1 :
  mkdir_parents p st = (Ok tt, st1) ->
  is_dir st1 (Path.of_string p) = true
  /\ fs st1 = fs st /\ cdm_calls st1 = cdm_calls st /\ procs st1 = procs st
  /\ (forall d, is_dir st d = true -> is_dir st1 d = true).
Proof.
  intros H. destruct (mkdir_chain_ok _ _ _ H)
    as (Hall & Hfs & Hc & Hp & Hmono & _).
  split; [|auto].
  destruct (of_string_is_dir_or_listed st1 p) as [Hd | Hin]; [exact Hd|].
  rewrite List.Forall_forall in Hall. apply Hall, Hin.
Qed.

End Paths.

(** ** What the stages leave alone *)

Lemma obeys_weaken {A} (R R' : State -> State -> Prop) (E E' : exn -> Prop)
    (m : M A) :
  (forall a b, R a b -> R' a b) -> (forall e, E e -> E' e) ->
  obeys R E m -> obeys R' E' m.
Proof.
  intros HR HE Hm st. destruct (Hm st) as [H1 H2]. split; [auto|].
  intros e He. apply HE, H2, He.
Qed.

Lemma same_cdm_refl st : same_cdm st st.
Proof. reflexivity. Qed.

Lemma same_cdm_trans a b c : same_cdm a b -> same_cdm b c -> same_cdm a c.
Proof. unfold same_cdm. congruence. Qed.

Lemma quiet_same_cdm a b : quiet a b -> same_cdm a b.
Proof. intros [_ H]. exact H. Qed.

Section FileFrames.
Variable env : Env.
Variable R : State -> State -> Prop.
Hypothesis R_refl : forall st, R st st.
Hypothesis R_trans : forall a b c, R a b -> R b c -> R a c.
Hypothesis R_fs : forall f st, R st (set_fs f st).

Lemma SESSION_get_caught url headers :
  obeys R caught (SESSION_get env url headers).
Proof.
  unfold SESSION_get. destruct (http_get env url headers).
  - apply obeys_ret; assumption.
  - apply obeys_raise; [assumption | reflexivity].
Qed.

Lemma raise_for_status_caught resp :
  obeys R caught (lift_result (raise_for_status resp)).
Proof.
  apply obeys_lift_result; [assumption|]. unfold raise_for_status.
  intros e. destruct (_ && _)%Z; [|discriminate]. intros [= <-]. reflexivity.
Qed.

Lemma file_create_obeys E path : obeys R E (file_create path).
Proof. apply obeys_modify. intros st. apply R_fs. Qed.

Lemma file_write_obeys E path data : obeys R E (file_write path data).
Proof. apply obeys_modify. intros st. apply R_fs. Qed.

Lemma open_wb_obeys path : obeys R caught (open_wb path).
Proof.
  unfold open_wb.
  apply obeys_bind; [assumption | apply obeys_gets; assumption |]. intros d.
  destruct d; [apply obeys_raise; [assumption | reflexivity]|].
  apply obeys_bind; [assumption | apply obeys_gets; assumption |].
  intros inside.
  destruct inside;
    [apply file_create_obeys | apply obeys_raise; [assumption | reflexivity]].
Qed.

Lemma rename_obeys src dst : obeys R caught (rename src dst).
Proof.
  intros st. unfold rename. destruct (fs st !! src); cbn [fst snd].
  - destruct (is_dir st dst); cbn [fst snd];
      [split; [apply R_refl | intros e [= <-]; reflexivity]|].
    destruct (is_dir st (Path.parent dst)); cbn [fst snd].
    + split; [apply R_fs | discriminate].
    + split; [apply R_refl | intros e [= <-]; reflexivity].
  - split; [apply R_refl | intros e [= <-]; reflexivity].
Qed.

Lemma mkdir_parents_obeys p :
  (forall d st, R st (add_dir d st)) -> obeys R caught (mkdir_parents p).
Proof.
  intros R_dir. unfold mkdir_parents.
  induction (Path.lineage p) as [|d rest IH]; cbn [mkdir_chain].
  - apply obeys_ret; assumption.
  - apply obeys_bind; [assumption | apply obeys_gets; assumption |].
    intros there. destruct there; [exact IH|].
    apply obeys_bind; [assumption | apply obeys_gets; assumption |].
    intros blocked.
    destruct blocked; [apply obeys_raise; [assumption | reflexivity]|].
    apply obeys_bind; [assumption | | intros _; exact IH].
    apply obeys_modify. intros st. apply R_dir.
Qed.

Lemma fetch_page_obeys url : obeys R caught (fetch_page env url).
Proof.
  unfold fetch_page.
  apply obeys_bind; [assumption | apply SESSION_get_caught |]. intros resp.
  apply obeys_bind; [assumption | apply raise_for_status_caught |]. intros _.
  apply obeys_ret; assumption.
Qed.

Lemma try_download_mp3_obeys song_path dest :
  obeys R caught (try_download_mp3 env song_path dest).
Proof.
  unfold try_download_mp3.
  apply obeys_bind; [assumption | apply SESSION_get_caught |]. intros resp.
  destruct (_ || _)%Z; [apply obeys_ret; assumption|].
  apply obeys_bind; [assumption | apply raise_for_status_caught |]. intros _.
  apply obeys_bind; [assumption | | intros total].
  { destruct (content_length resp) as [h|]; [|apply obeys_ret; assumption].
    destruct (PyInt.int h); [apply obeys_ret; assumption|].
    apply obeys_raise; [assumption | reflexivity]. }
  apply obeys_bind; [assumption | | intros part].
  { apply obeys_lift_result; [assumption|]. unfold Path.with_suffix.
    intros e. destruct (PyStr.truthy _); [discriminate|].
    intros [= <-]. reflexivity. }
  apply obeys_bind; [assumption | apply open_wb_obeys |]. intros _.
  apply obeys_bind; [assumption | | intros _].
  { apply obeys_for_each; [assumption | assumption |]. intros chunk.
    apply file_write_obeys. }
  apply obeys_bind; [assumption | | intros _].
  { destruct (snd (iter_content resp));
      [apply obeys_raise; [assumption | reflexivity]
      |apply obeys_ret; assumption]. }
  apply obeys_bind; [assumption | apply rename_obeys |]. intros _.
  apply obeys_ret; assumption.
Qed.

(** The direct attempt never raises: what [try_download_mp3] raises is
    caught. *)
Lemma direct_attempt_obeys info dest :
  obeys R no_exn (direct_attempt env info dest).
Proof.
  intros st. unfold direct_attempt, try_except.
  destruct (try_download_mp3_obeys (song_path info) dest st) as [HR HE].
  destruct (try_download_mp3 env (song_path info) dest st) as [[b|e] st1];
    cbn [fst snd] in *.
  - split; [exact HR | discriminate].
  - rewrite (HE e eq_refl). cbn [ret fst snd]. split; [exact HR | discriminate].
Qed.

End FileFrames.

(** Making directories runs no subprocess and does not call the key
    system. *)
Lemma mkdir_parents_quiet p : obeys quiet any_exn (mkdir_parents p).
Proof.
  apply (obeys_weaken quiet quiet caught any_exn);
    [auto | intros; exact I |].
  apply mkdir_parents_obeys; [apply quiet_refl | apply quiet_trans |].
  intros d st. split; reflexivity.
Qed.

(** ** The direct download *)

Section DirectDownload.
Import PyStr.
Variable env : Env.

Lemma set_fs_set_fs f g st : set_fs f (set_fs g st) = set_fs f st.
Proof. reflexivity. Qed.

Lemma not_refused_status resp :
  status_code resp <> 403%Z -> status_code resp <> 404%Z ->
  ((status_code resp =? 403) || (status_code resp =? 404))%Z = false.
Proof.
  intros H3 H4. apply orb_false_iff. split; apply Z.eqb_neq; assumption.
Qed.

Lemma set_fs_fs st : set_fs (fs st) st = st.
Proof. destruct st. reflexivity. Qed.

Lemma write_chunks part chunks : forall st data,
  fs st !! part = Some data ->
  for_each chunks (file_write part) st
  = (Ok tt, set_fs (<[part := data ++ concat chunks]> (fs st)) st).
Proof.
  induction chunks as [|c rest IH]; intros st data Hdata.
  - cbn [for_each concat ret]. rewrite app_nil_r, (insert_id _ _ _ Hdata).
    rewrite set_fs_fs. reflexivity.
  - cbn [for_each concat]. unfold bind at 1. unfold file_write at 1, modify.
    rewrite Hdata. cbn [default].
    rewrite (IH _ (data ++ c)) by (cbn [set_fs fs]; apply lookup_insert_eq).
    cbn [set_fs fs]. rewrite insert_insert_eq, app_assoc. reflexivity.
Qed.

Lemma fs_set_fs f st : fs (set_fs f st) = f.
Proof. reflexivity. Qed.

Lemma is_dir_set_fs f st p : is_dir (set_fs f st) p = is_dir st p.
Proof. reflexivity. Qed.

(** The streaming of the body through the part file. *)
Lemma stream_through_part (dest part : string) (resp : Response) (st : State) :
  writable st dest part ->
  (part <- (fun s => (Path.with_suffix dest ".mp3.part", s)) ;;
   open_wb part ;;
   for_each (fst (iter_content resp)) (file_write part) ;;
   match snd (iter_content resp) with
   | Some why => raise (RequestException why)
   | None => ret tt
   end ;;
   rename part dest ;; ret true)%py st
  = match snd (iter_content resp) with
    | None =>
        (Ok true,
         set_fs (<[dest := concat (fst (iter_content resp))]>
                   (delete part (fs st))) st)
    | Some why =>
        (Raise (RequestException why),
         set_fs (<[part := concat (fst (iter_content resp))]> (fs st)) st)
    end.
Proof.
  intros (Hpart & Hin & Hnot & Hin' & Hnot').
  unfold bind at 1. rewrite Hpart.
  unfold bind at 1.
  assert (Hopen : open_wb part st
                  = (Ok tt, set_fs (<[part := []]> (fs st)) st)).
  { unfold open_wb, gets, bind. rewrite Hnot, Hin. reflexivity. }
  rewrite Hopen. unfold bind at 1.
  rewrite (write_chunks part _ _ [])
    by (rewrite fs_set_fs; apply lookup_insert_eq).
  rewrite fs_set_fs, set_fs_set_fs, insert_insert_eq. cbn [app].
  destruct (snd (iter_content resp)) as [why|].
  - reflexivity.
  - unfold bind at 1. cbn [ret]. unfold bind at 1. unfold rename.
    rewrite !is_dir_set_fs, !fs_set_fs, lookup_insert_eq, Hnot', Hin'.
    rewrite set_fs_set_fs, delete_insert_eq. reflexivity.
Qed.

(** The direct download, when the response can be streamed and the
    destination written. *)
Lemma try_download_mp3_ok (song_path dest part : string) (resp : Response)
    (st : State) :
  http_get env song_path [] = Done resp ->
  downloadable resp ->
  writable st dest part ->
  try_download_mp3 env song_path dest st
  = match snd (iter_content resp) with
    | None =>
        (Ok true,
         set_fs (<[dest := concat (fst (iter_content resp))]>
                   (delete part (fs st))) st)
    | Some why =>
        (Raise (RequestException why),
         set_fs (<[part := concat (fst (iter_content resp))]> (fs st)) st)
    end.
Proof.
  intros Hget (H3 & H4 & Hstatus & Hlen) Hplace.
  pose proof (stream_through_part dest part resp st Hplace) as Hfiles.
  unfold try_download_mp3, SESSION_get, lift_result.
  unfold bind at 1. rewrite Hget. cbn [ret].
  rewrite (not_refused_status resp H3 H4).
  unfold bind at 1. rewrite Hstatus.
  unfold bind at 1.
  destruct (content_length resp) as [h|] eqn:Hh; [|exact Hfiles].
  specialize (Hlen h eq_refl).
  destruct (PyInt.int h); [exact Hfiles | congruence].
Qed.

(** When the direct source answers with a response that can be streamed,
    and the destination can be written, [try_download_mp3] streams the
    body through the part file. When the stream is delivered whole, it
    returns [True]; the destination then holds the chunks, in the order
    of their delivery, and the part file is gone. When the stream breaks,
    the transport failure is raised; the part file is left behind with the
    chunks delivered until then, and the destination is as it was. Every
    other file is as it was, no directory is made, no subprocess is run
    and the key system is not called. *)
Theorem try_download_mp3_saves (song_path dest part : string)
    (resp : Response) (st : State) :
  http_get env song_path [] = Done resp ->
  downloadable resp ->
  writable st dest part ->
  let run := try_download_mp3 env song_path dest st in
  let body := concat (fst (iter_content resp)) in
  match snd (iter_content resp) with
  | None =>
      fst run = Ok true
      /\ fs (snd run) !! dest = Some body
      /\ (part <> dest -> fs (snd run) !! part = None)
  | Some why =>
      fst run = Raise (RequestException why)
      /\ fs (snd run) !! part = Some body
      /\ (part <> dest -> fs (snd run) !! dest = fs st !! dest)
  end
  /\ (forall p, p <> dest -> p <> part -> fs (snd run) !! p = fs st !! p)
  /\ quiet st (snd run)
  /\ dirs (snd run) = dirs st.
Proof.
  intros Hget Hresp Hplace. cbv zeta.
  rewrite (try_download_mp3_ok song_path dest part resp st Hget Hresp Hplace).
  destruct (snd (iter_content resp)) as [why|]; cbn [fst snd set_fs fs dirs].
  - split; [split; [reflexivity|split]|split; [|split]].
    + apply lookup_insert_eq.
    + intros Hne. apply lookup_insert_ne. exact Hne.
    + intros p _ Hp. apply lookup_insert_ne. congruence.
    + apply quiet_set_fs.
    + reflexivity.
  - split; [split; [reflexivity|split]|split; [|split]].
    + apply lookup_insert_eq.
    + intros Hne. rewrite lookup_insert_ne by congruence.
      apply lookup_delete_eq.
    + intros p Hd Hp.
      rewrite lookup_insert_ne, lookup_delete_ne by congruence. reflexivity.
    + apply quiet_set_fs.
    + reflexivity.
Qed.

(** When the direct source answers with an error status, or cannot be
    reached, [try_download_mp3] writes nothing: it returns [False] for the
    statuses 403 and 404, raises the HTTP error for the other statuses from
    400 to 599, and raises the transport failure, each time leaving the
    state as it was. *)
Theorem try_download_mp3_refusals (song_path dest : string) (st : State) :
  (forall resp,
      http_get env song_path [] = Done resp ->
      (400 <= status_code resp < 600)%Z ->
      try_download_mp3 env song_path dest st
      = (if ((status_code resp =? 403) || (status_code resp =? 404))%Z
         then Ok false else Raise (HTTPError (status_code resp)), st))
  /\ (forall why,
        http_get env song_path [] = Failed why ->
        try_download_mp3 env song_path dest st
        = (Raise (RequestException why), st)).
Proof.
  unfold try_download_mp3, SESSION_get, lift_result, bind.
  split.
  - intros resp -> Hstatus. cbn [ret].
    destruct (_ || _)%Z; [reflexivity|].
    unfold raise_for_status.
    replace ((400 <=? status_code resp)%Z && (status_code resp <? 600)%Z)
      with true; [reflexivity|].
    symmetry. apply andb_true_iff. split; [apply Z.leb_le | apply Z.ltb_lt]; lia.
  - intros why ->. reflexivity.
Qed.

End DirectDownload.

Lemma try_download_mp3_saves_witness :
  (let run := try_download_mp3 (Double.healthy (Done Double.mp3_response))
                Double.mp3_url Double.mp3_dest Double.ready in
   fst run = Ok true
   /\ fs (snd run) !! Double.mp3_dest = Some (Double.bytes "MP3")
   /\ fs (snd run) !! "out/Band - Song.mp3.part" = None)
  /\ (let run := try_download_mp3 (Double.healthy (Done Double.mp3_broken))
                   Double.mp3_url Double.mp3_dest Double.ready in
      fst run = Raise (RequestException "Connection broken")
      /\ fs (snd run) !! "out/Band - Song.mp3.part" = Some (Double.bytes "MP")
      /\ fs (snd run) !! Double.mp3_dest = None).
Proof.
  assert (Hplace : writable Double.ready Double.mp3_dest
                     "out/Band - Song.mp3.part").
  { split; [reflexivity|]. split; [reflexivity|]. split; [reflexivity|].
    split; reflexivity. }
  assert (Hresp : forall resp, status_code resp = 200%Z ->
                    content_length resp = Some "3" -> downloadable resp).
  { intros resp Hs Hl. unfold downloadable, raise_for_status. rewrite Hs, Hl.
    split; [discriminate|]. split; [discriminate|]. split; [reflexivity|].
    intros h [= <-]. discriminate. }
  split.
  - destruct (try_download_mp3_saves (Double.healthy (Done Double.mp3_response))
                Double.mp3_url Double.mp3_dest "out/Band - Song.mp3.part"
                Double.mp3_response Double.ready eq_refl
                (Hresp Double.mp3_response eq_refl eq_refl) Hplace)
      as ((Hok & Hdest & Hpart) & _).
    split; [exact Hok|]. split; [exact Hdest|]. apply Hpart. discriminate.
  - destruct (try_download_mp3_saves (Double.healthy (Done Double.mp3_broken))
                Double.mp3_url Double.mp3_dest "out/Band - Song.mp3.part"
                Double.mp3_broken Double.ready eq_refl
                (Hresp Double.mp3_broken eq_refl eq_refl) Hplace)
      as ((Hraise & Hpart & Hdest) & _).
    split; [exact Hraise|]. split; [exact Hpart|].
    rewrite Hdest by discriminate. reflexivity.
Defined.

Lemma try_download_mp3_refusals_witness :
  try_download_mp3 (Double.healthy Double.server_error) Double.mp3_url
    Double.mp3_dest Double.start
  = (Raise (HTTPError 500), Double.start)
  /\ try_download_mp3 (Double.healthy Double.unreachable) Double.mp3_url
       Double.mp3_dest Double.start
     = (Raise (RequestException "Connection refused"), Double.start).
Proof.
  split.
  - apply (proj1 (try_download_mp3_refusals
                    (Double.healthy Double.server_error) Double.mp3_url
                    Double.mp3_dest Double.start)
             (Double.response 500 "Oops")); [reflexivity | cbn; lia].
  - apply (proj2 (try_download_mp3_refusals
                    (Double.healthy Double.unreachable) Double.mp3_url
                    Double.mp3_dest Double.start)
             "Connection refused"). reflexivity.
Defined.

(** ** The orchestration *)

Section Orchestration.
Import PyStr.
Variable env : Env.

Lemma decrypt_and_cleanup_same_cdm key_hex enc_path dest :
  obeys same_cdm any_exn (decrypt_and_cleanup env key_hex enc_path dest).
Proof.
  intros st. split; [|intros; exact I].
  unfold decrypt_and_cleanup, try_finally, subprocess_run, unlink, modify,
    bind, ret, raise, same_cdm.
  destruct (run_process env _ _) as [[cp fs']|why]; [|reflexivity].
  destruct (negb (returncode cp =? 0)%Z); reflexivity.
Qed.

Lemma download_drm_stream_same_cdm song_id key_hex dest :
  obeys same_cdm any_exn (download_drm_stream env song_id key_hex dest).
Proof.
  pose proof same_cdm_refl as Hr. pose proof same_cdm_trans as Ht.
  unfold download_drm_stream.
  apply obeys_bind; [assumption | | intros k].
  { apply obeys_lift_result; [assumption | intros; exact I]. }
  apply obeys_bind; [assumption | | intros segs].
  { eapply obeys_weaken; [| |apply (fetch_stream_segments_obeys env same_cdm)];
      auto. intros; exact I. }
  apply obeys_bind; [assumption | | intros enc].
  { eapply obeys_weaken; [apply quiet_same_cdm | | apply assemble_segments_obeys].
    intros; exact I. }
  apply decrypt_and_cleanup_same_cdm.
Qed.

(** With a key given on the command line, [main] never calls the key
    system, whatever the servers, the engine and the file system do: key
    negotiation is skipped entirely. *)
Theorem supplied_key_skips_negotiation (args : Args) (key_hex : string)
    (st : State) :
  args_key args = Some key_hex ->
  truthy key_hex = true ->
  cdm_calls (snd (main env args st)) = cdm_calls st.
Proof.
  intros Hkey Htruthy.
  pose proof same_cdm_refl as Hr. pose proof same_cdm_trans as Ht.
  assert (Hfs : forall f s, same_cdm s (set_fs f s)) by reflexivity.
  assert (H : obeys same_cdm any_exn (main env args)).
  { unfold main.
    apply obeys_bind; [assumption | | intros _].
    { apply (obeys_weaken quiet same_cdm any_exn any_exn);
        [apply quiet_same_cdm | auto | apply mkdir_parents_quiet]. }
    apply obeys_bind; [assumption | | intros html].
    { eapply obeys_weaken; [| |apply (fetch_page_obeys env same_cdm)]; auto.
      intros; exact I. }
    apply obeys_bind; [assumption | | intros info].
    { apply obeys_lift_result; [assumption | intros; exact I]. }
    apply obeys_bind; [assumption | | intros finished].
    { eapply obeys_weaken; [| |apply (direct_attempt_obeys env same_cdm)]; auto.
      intros; exact I. }
    destruct finished; [apply obeys_ret; assumption|].
    destruct (String.eqb _ "suno");
      [apply obeys_raise; [assumption | exact I]|].
    unfold drm_fallback.
    destruct (_ || _); [apply obeys_raise; [assumption | exact I]|].
    apply obeys_bind; [assumption | | intros k].
    { unfold determine_key, given. rewrite Hkey, Htruthy.
      apply obeys_ret; assumption. }
    apply download_drm_stream_same_cdm. }
  apply (H st).
Qed.

(** On a Suno URL, [main] never enters the protected pipeline: whatever
    happens, no subprocess is run and the key system is not called. *)
Theorem suno_never_enters_drm (args : Args) (st : State) :
  detect_platform (args_url args) = "suno" ->
  procs (snd (main env args st)) = procs st
  /\ cdm_calls (snd (main env args st)) = cdm_calls st.
Proof.
  intros Hsuno.
  pose proof quiet_refl as Hr. pose proof quiet_trans as Ht.
  pose proof quiet_set_fs as Hfs.
  assert (H : obeys quiet any_exn (main env args)).
  { unfold main. rewrite Hsuno.
    apply obeys_bind; [assumption | apply mkdir_parents_quiet | intros _].
    apply obeys_bind; [assumption | | intros html].
    { eapply obeys_weaken; [| |apply (fetch_page_obeys env quiet)]; auto.
      intros; exact I. }
    apply obeys_bind; [assumption | | intros info].
    { apply obeys_lift_result; [assumption | intros; exact I]. }
    apply obeys_bind; [assumption | | intros finished].
    { eapply obeys_weaken; [| |apply (direct_attempt_obeys env quiet)]; auto.
      intros; exact I. }
    destruct finished; [apply obeys_ret; assumption|].
    apply obeys_raise; [assumption | exact I]. }
  apply (H st).
Qed.

(** When the output directory is there or can be made, the page and the
    metadata are resolved, and the direct source answers with a response
    whose body is streamed whole, [main] ends normally with the track
    saved under the output directory as "artist - title.mp3" (made safe),
    on any platform, provided neither that path nor the path of its part
    file is a directory. Nothing else happens after the output directory is
    made. *)
Theorem direct_download_completes (args : Args) (info : SongInfo)
    (resp : Response) (part : string) (st st1 : State) :
  mkdir_parents (output_dir args) st = (Ok tt, st1) ->
  page_resolved env args info ->
  http_get env (song_path info) [] = Done resp ->
  downloadable resp ->
  snd (iter_content resp) = None ->
  let dest := Path.join (output_dir args)
                (safe_filename (artist info) (title info) "mp3") in
  Path.with_suffix dest ".mp3.part" = Ok part ->
  is_dir st1 dest = false ->
  is_dir st1 part = false ->
  main env args st
  = (Ok tt,
     set_fs (<[dest := concat (fst (iter_content resp))]>
               (delete part (fs st1))) st1).
Proof.
  intros Hmkdir (page & Hpage & Hstatus & Hinfo) Hget Hresp Hwhole. cbv zeta.
  intros Hpart Hdest Hnot.
  destruct (mkdir_parents_ok _ _ _ Hmkdir) as (Hdir & _).
  destruct (download_place (output_dir args)
              (safe_filename (artist info) (title info) "mp3")
              (safe_filename_simple _ _ _)) as (part' & Hpart' & Hin & Hin').
  assert (part' = part) by congruence. subst part'.
  assert (Hplace : writable st1
            (Path.join (output_dir args)
               (safe_filename (artist info) (title info) "mp3")) part).
  { split; [exact Hpart|]. rewrite Hin, Hin'. auto. }
  unfold main. unfold bind at 1. rewrite Hmkdir.
  unfold bind at 1.
  rewrite (fetch_page_ok _ _ _ _ Hpage Hstatus).
  unfold lift_result. unfold bind at 1. rewrite Hinfo.
  unfold bind at 1. unfold direct_attempt, try_except.
  rewrite (try_download_mp3_ok env _ _ part resp st1 Hget Hresp Hplace).
  rewrite Hwhole. reflexivity.
Qed.

End Orchestration.

Lemma supplied_key_skips_negotiation_witness :
  cdm_calls (snd (main (Double.healthy Double.not_found)
                       (Double.args_with_key Double.page_url) Double.start))
  = [].
Proof.
  apply (supplied_key_skips_negotiation (Double.healthy Double.not_found)
           (Double.args_with_key Double.page_url) Double.a_key Double.start);
    reflexivity.
Defined.

Lemma suno_never_enters_drm_witness :
  procs (snd (main (Double.healthy Double.not_found)
                   (Double.args_with_cdm Double.suno_url) Double.start)) = []
  /\ cdm_calls (snd (main (Double.healthy Double.not_found)
                          (Double.args_with_cdm Double.suno_url) Double.start))
     = [].
Proof.
  apply (suno_never_enters_drm (Double.healthy Double.not_found)
           (Double.args_with_cdm Double.suno_url) Double.start).
  reflexivity.
Defined.

Lemma direct_download_completes_witness :
  let run := main (Double.healthy (Done Double.mp3_response))
               (Double.args_bare Double.suno_url) Double.start in
  fst run = Ok tt
  /\ fs (snd run) !! Double.mp3_dest = Some (Double.bytes "MP3")
  /\ is_dir (snd run) "out" = true.
Proof.
  cbv zeta.
  rewrite (direct_download_completes (Double.healthy (Done Double.mp3_response))
             (Double.args_bare Double.suno_url) Double.info
             Double.mp3_response "out/Band - Song.mp3.part"
             Double.start Double.ready).
  - split; [reflexivity|]. split; reflexivity.
  - reflexivity.
  - exists (Double.response 200 "<html>"). repeat split.
  - reflexivity.
  - repeat split; try discriminate. intros h [= <-]. discriminate.
  - reflexivity.
  - reflexivity.
  - reflexivity.
  - reflexivity.
Defined.

(** ** More on key negotiation *)

Section Negotiation.
Import PyStr.
Variable env : Env.

(** What [obtain_content_key] returns once the license is parsed. *)
Lemma obtain_content_key_result st cdm_path pssh_b64 key_id keys :
  license_yields env st cdm_path pssh_b64 keys ->
  fst (obtain_content_key env cdm_path pssh_b64 key_id st)
  = match List.find (fun k => String.eqb (kid k) key_id) (content_keys keys) with
    | Some k => Ok (PyBytes.hex (key k))
    | None =>
        match head (content_keys keys) with
        | Some k =>
            if truthy (PyBytes.hex (key k)) then Ok (PyBytes.hex (key k))
            else Raise no_content_key
        | None => Raise no_content_key
        end
    end.
Proof.
  intros Hy.
  destruct (obtain_content_key_reaches_loop env st cdm_path pssh_b64 key_id keys Hy)
    as (sid & st1 & _ & _ & _ & ->).
  rewrite key_loop_spec.
  destruct (List.find _ (content_keys keys)); [reflexivity|].
  destruct (head (content_keys keys)) as [k|]; cbn [option_map];
    [destruct (truthy _)|]; reflexivity.
Qed.

(** A negotiation that gets as far as the parsed license makes exactly
    five calls to the key system, in this order and on one session: open,
    challenge, parse, list the keys, close. It touches no file and runs no
    subprocess. *)
Theorem negotiation_call_trace (st : State)
    (cdm_path pssh_b64 key_id : string) (keys : list Key) :
  license_yields env st cdm_path pssh_b64 keys ->
  let run := obtain_content_key env cdm_path pssh_b64 key_id st in
  (exists session_id,
      cdm_calls (snd run)
      = cdm_calls st ++ [COpen session_id; CChallenge session_id;
                         CParse session_id; CGetKeys session_id;
                         CClose session_id])
  /\ fs (snd run) = fs st
  /\ procs (snd run) = procs st.
Proof.
  intros Hy. cbv zeta.
  destruct (obtain_content_key_reaches_loop env st cdm_path pssh_b64 key_id keys Hy)
    as (sid & st1 & Hcalls & Hfs & Hprocs & ->).
  rewrite key_loop_spec.
  assert (Hend : cdm_calls (log_cdm (CClose sid) st1)
                 = cdm_calls st ++ [COpen sid; CChallenge sid; CParse sid;
                                    CGetKeys sid; CClose sid]).
  { cbn [log_cdm cdm_calls]. rewrite Hcalls, <- app_assoc. reflexivity. }
  destruct (List.find _ (content_keys keys)); cbn [snd].
  - split; [exists sid; exact Hend | split; assumption].
  - destruct (head (content_keys keys)) as [k|]; cbn [option_map];
      [destruct (truthy _)|]; cbn [snd];
      (split; [exists sid; exact Hend | split; assumption]).
Qed.

Lemma byte_hex_lower b : all_chars is_lower_hex (PyBytes.byte_hex b) = true.
Proof. destruct b; reflexivity. Qed.

Lemma hex_lower bs : all_chars is_lower_hex (PyBytes.hex bs) = true.
Proof.
  induction bs as [|b bs IH]; [reflexivity|]. cbn [PyBytes.hex].
  rewrite all_chars_app, byte_hex_lower, IH. reflexivity.
Qed.

Lemma hex_length bs : String.length (PyBytes.hex bs) = 2 * length bs.
Proof.
  induction bs as [|b bs IH]; [reflexivity|]. cbn [PyBytes.hex length].
  rewrite string_length_app, IH. cbn [PyBytes.byte_hex String.length]. lia.
Qed.

Lemma lower_hex_char c :
  is_lower_hex c = true ->
  isspace c = false /\ lower_char c = c /\ Re.hex_class c = true.
Proof.
  destruct c as [[] [] [] [] [] [] [] []]; intros H;
    try discriminate H; repeat split.
Qed.

Lemma lstrip_id s :
  all_chars is_lower_hex s = true -> lstrip s = s.
Proof.
  destruct s as [|c s]; [reflexivity|]. cbn [all_chars lstrip].
  intros [Hc _]%andb_true_iff. apply lower_hex_char in Hc as (-> & _).
  reflexivity.
Qed.

Lemma rstrip_id s :
  all_chars is_lower_hex s = true -> rstrip s = s.
Proof.
  induction s as [|c s IH]; [reflexivity|]. cbn [all_chars rstrip].
  intros [Hc Hs]%andb_true_iff. rewrite (IH Hs).
  apply lower_hex_char in Hc as (-> & _). destruct s; reflexivity.
Qed.

Lemma lower_id s :
  all_chars is_lower_hex s = true -> lower s = s.
Proof.
  unfold lower. induction s as [|c s IH]; [reflexivity|].
  cbn [all_chars map_chars]. intros [Hc Hs]%andb_true_iff.
  rewrite (IH Hs). apply lower_hex_char in Hc as (_ & -> & _). reflexivity.
Qed.

Lemma lower_hex_is_hex s :
  all_chars is_lower_hex s = true -> all_chars Re.hex_class s = true.
Proof.
  induction s as [|c s IH]; [reflexivity|]. cbn [all_chars].
  intros [Hc Hs]%andb_true_iff. rewrite (IH Hs).
  apply lower_hex_char in Hc as (_ & _ & ->). reflexivity.
Qed.

(** The key check hands on, unchanged, any string of 32 lower-case
    hexadecimal digits. *)
Lemma normalise_key_fixed s :
  String.length s = 32 -> all_chars is_lower_hex s = true ->
  normalise_key s = Ok s.
Proof.
  intros Hlen Hall. rewrite normalise_key_spec. unfold strip.
  rewrite (lstrip_id s Hall), (rstrip_id s Hall), (lower_id s Hall).
  unfold is_hex_key. rewrite Hlen, (lower_hex_is_hex s Hall). reflexivity.
Qed.

(** The two stages fit: when the license holds a content key and its
    content keys have 16 bytes, the key that [obtain_content_key] returns
    is the hexadecimal form of one of them, and the key check of
    [download_drm_stream] accepts it as it is. *)
Theorem negotiated_key_passes_check (st : State)
    (cdm_path pssh_b64 key_id : string) (keys : list Key) :
  license_yields env st cdm_path pssh_b64 keys ->
  content_keys keys <> [] ->
  Forall (fun k => length (key k) = 16) (content_keys keys) ->
  exists k,
    In k (content_keys keys)
    /\ fst (obtain_content_key env cdm_path pssh_b64 key_id st)
       = Ok (PyBytes.hex (key k))
    /\ normalise_key (PyBytes.hex (key k)) = Ok (PyBytes.hex (key k)).
Proof.
  intros Hy Hne H16. rewrite Forall_forall in H16.
  assert (Hok : forall k, In k (content_keys keys) ->
                normalise_key (PyBytes.hex (key k)) = Ok (PyBytes.hex (key k))).
  { intros k Hk. apply normalise_key_fixed; [|apply hex_lower].
    rewrite hex_length, (H16 k) by (apply list_elem_of_In; exact Hk).
    reflexivity. }
  rewrite (obtain_content_key_result st cdm_path pssh_b64 key_id keys Hy).
  destruct (List.find _ (content_keys keys)) as [k|] eqn:Hfind.
  - apply find_some in Hfind as [Hk _]. exists k. auto.
  - destruct (content_keys keys) as [|k rest] eqn:Hc; [congruence|].
    cbn [head]. exists k.
    assert (Hk : In k (k :: rest)) by (left; reflexivity).
    rewrite hex_truthy.
    + auto.
    + intros Hnil. specialize (H16 k (proj2 (list_elem_of_In _ _) Hk)).
      rewrite Hnil in H16. discriminate.
Qed.

End Negotiation.

Lemma negotiation_call_trace_witness :
  let run := obtain_content_key (Double.healthy Double.not_found)
               Double.wvd_path Double.pssh Double.manifest_key_id
               Double.start in
  (exists session_id,
      cdm_calls (snd run)
      = cdm_calls Double.start
        ++ [COpen session_id; CChallenge session_id; CParse session_id;
            CGetKeys session_id; CClose session_id])
  /\ fs (snd run) = fs Double.start
  /\ procs (snd run) = procs Double.start.
Proof.
  apply (negotiation_call_trace (Double.healthy Double.not_found)
           Double.start Double.wvd_path Double.pssh Double.manifest_key_id
           Double.two_keys (healthy_license_yields Double.not_found)).
Defined.

Lemma negotiated_key_passes_check_witness :
  exists k,
    In k (content_keys Double.two_keys)
    /\ fst (obtain_content_key (Double.healthy Double.not_found)
              Double.wvd_path Double.pssh Double.manifest_key_id Double.start)
       = Ok (PyBytes.hex (key k))
    /\ normalise_key (PyBytes.hex (key k)) = Ok (PyBytes.hex (key k)).
Proof.
  apply (negotiated_key_passes_check (Double.healthy Double.not_found)
           Double.start Double.wvd_path Double.pssh Double.manifest_key_id
           Double.two_keys (healthy_license_yields Double.not_found)).
  - discriminate.
  - repeat constructor.
Defined.

Lemma no_close_on_earlier_failure_witness :
  close_count (cdm_calls (snd (obtain_content_key Double.license_down
     Double.wvd_path Double.pssh Double.manifest_key_id Double.start)))
  = close_count (cdm_calls Double.start).
Proof.
  apply (no_close_on_earlier_failure Double.license_down Double.start
           Double.wvd_path Double.pssh Double.manifest_key_id (HTTPError 500)).
  - reflexivity.
  - discriminate.
Defined.

(** ** The device credential *)

Section Device.
Import PyStr.
Variable env : Env.


Lemma find_wvd_device_after_override st :
  no_override env st ->
  find_wvd_device env st
  = (Ok (if path_exists st (Path.join (_config_dir env) "device.wvd")
         then Some (Path.join (_config_dir env) "device.wvd")
         else List.find (fun f => String.eqb (Path.suffix f) ".wvd")
                        (config_entries env st)), st).
Proof.
  intros Hno. unfold find_wvd_device. unfold bind at 1.
  assert (Hfirst :
    match os_environ env "MUSIC_DL_CDM" with
    | Some v =>
        if truthy v
        then (e <- exists_path (Path.of_string v) ;;
              ret (if e then Some (Path.of_string v) else None))%py
        else ret None
    | None => ret None
    end st = (Ok None, st)).
  { destruct (os_environ env "MUSIC_DL_CDM") as [v|] eqn:Hv; [|reflexivity].
    destruct (truthy v) eqn:Ht; [|reflexivity].
    unfold bind, exists_path, gets. rewrite (Hno v Hv Ht).
    reflexivity. }
  rewrite Hfirst. unfold bind, exists_path, gets, config_entries, iterdir.
  destruct (path_exists st (Path.join (_config_dir env) "device.wvd"));
    [reflexivity|].
  destruct (is_dir st (_config_dir env)); reflexivity.
Qed.

Lemma find_wvd_none l :
  Forall (fun f => Path.suffix f <> ".wvd") l ->
  List.find (fun f => String.eqb (Path.suffix f) ".wvd") l = None.
Proof.
  induction 1 as [|f l Hf _ IH]; [reflexivity|]. cbn [List.find].
  destruct (String.eqb (Path.suffix f) ".wvd") eqn:E;
    [apply String.eqb_eq in E; contradiction | exact IH].
Qed.

Lemma find_wvd_device_none st :
  no_device env st -> find_wvd_device env st = (Ok None, st).
Proof.
  intros (Hno & Hw & Hl).
  rewrite (find_wvd_device_after_override st Hno), Hw, (find_wvd_none _ Hl).
  reflexivity.
Qed.

(** [find_wvd_device] looks in three places, in this order: the path the
    variable MUSIC_DL_CDM names, if it exists, as a file or as a
    directory; then [device.wvd] in the configuration directory, if it
    exists; then the first entry of the configuration directory, in the
    order in which the operating system lists them, whose suffix is
    [.wvd]. An override that names nothing is ignored. The search changes
    nothing. *)
Theorem find_wvd_device_order (st : State) :
  (forall v,
      os_environ env "MUSIC_DL_CDM" = Some v -> truthy v = true ->
      path_exists st (Path.of_string v) = true ->
      find_wvd_device env st = (Ok (Some (Path.of_string v)), st))
  /\ (no_override env st ->
      path_exists st (Path.join (_config_dir env) "device.wvd") = true ->
      find_wvd_device env st
      = (Ok (Some (Path.join (_config_dir env) "device.wvd")), st))
  /\ (no_override env st ->
      path_exists st (Path.join (_config_dir env) "device.wvd") = false ->
      find_wvd_device env st
      = (Ok (List.find (fun f => String.eqb (Path.suffix f) ".wvd")
                       (config_entries env st)), st))
  /\ (no_device env st -> find_wvd_device env st = (Ok None, st)).
Proof.
  split; [|split; [|split]].
  - intros v Hv Ht Hthere. unfold find_wvd_device, bind, exists_path, gets.
    rewrite Hv, Ht, Hthere. reflexivity.
  - intros Hno Hw. rewrite (find_wvd_device_after_override st Hno), Hw.
    reflexivity.
  - intros Hno Hw. rewrite (find_wvd_device_after_override st Hno), Hw.
    reflexivity.
  - apply find_wvd_device_none.
Qed.



(** The determination of the key stops with exit status 1, before any call
    to the key system and leaving the state as it was, when no key is
    given and the manifest is fetched but: no device credential is given
    or found; or the given device path names neither a file nor a
    directory; or the given device path exists and the manifest carries no
    protection header. *)
Theorem key_required_exits (args : Args) (song_id : string)
    (segs : StreamManifest) (st : State) :
  given (args_key args) = None ->
  fst (fetch_stream_segments env song_id st) = Ok segs ->
  (given (args_cdm args) = None /\ no_device env st)
  \/ (exists p, given (args_cdm args) = Some p
                /\ path_exists st (Path.of_string p) = false)
  \/ (exists p, given (args_cdm args) = Some p
                /\ path_exists st (Path.of_string p) = true
                /\ given (pssh_b64 segs) = None) ->
  determine_key env args song_id st = (Raise (SystemExit 1), st).
Proof.
  intros Hkey Hfetch Hcases.
  destruct (fetch_stream_segments_obeys env untouched untouched_refl
              untouched_trans song_id st) as [Hst _].
  unfold determine_key. rewrite Hkey. unfold bind at 1.
  destruct (fetch_stream_segments env song_id st) as [r st1].
  cbn [fst snd] in *. unfold untouched in Hst. subst st1 r.
  unfold bind at 1.
  destruct Hcases as [[Hcdm Hnone] | [(p & Hcdm & Hfile) | (p & Hcdm & Hfile & Hpssh)]];
    rewrite Hcdm.
  - rewrite (find_wvd_device_none st Hnone). reflexivity.
  - cbn [ret]. unfold bind, exists_path, gets. rewrite Hfile. reflexivity.
  - cbn [ret]. unfold bind, exists_path, gets. rewrite Hfile.
    cbn [negb]. rewrite Hpssh. reflexivity.
Qed.

End Device.

Lemma find_wvd_device_order_witness :
  find_wvd_device Double.overridden Double.both
  = (Ok (Some Double.extracted_path), Double.both)
  /\ find_wvd_device (Double.healthy Double.not_found) Double.both
     = (Ok (Some Double.wvd_path), Double.both)
  /\ find_wvd_device (Double.healthy Double.not_found) Double.renamed
     = (Ok (Some "/home/user/.config/music-dl/pixel.wvd"), Double.renamed)
  /\ find_wvd_device (Double.healthy Double.not_found) Double.fresh
     = (Ok None, Double.fresh).
Proof.
  split; [|split; [|split]].
  - apply (proj1 (find_wvd_device_order Double.overridden Double.both)
             Double.extracted_path); reflexivity.
  - apply (proj1 (proj2 (find_wvd_device_order
                           (Double.healthy Double.not_found) Double.both)));
      [|reflexivity].
    intros p Hp. discriminate Hp.
  - apply (proj1 (proj2 (proj2 (find_wvd_device_order
                                  (Double.healthy Double.not_found)
                                  Double.renamed))));
      [|reflexivity].
    intros p Hp. discriminate Hp.
  - apply (proj2 (proj2 (proj2 (find_wvd_device_order
                                  (Double.healthy Double.not_found)
                                  Double.fresh)))).
    split; [|split].
    + intros p Hp. discriminate Hp.
    + reflexivity.
    + constructor.
Defined.



Lemma key_required_exits_witness :
  determine_key (Double.healthy Double.not_found)
    (Double.args_bare Double.page_url) Double.song_id Double.fresh
  = (Raise (SystemExit 1), Double.fresh)
  /\ determine_key (Double.healthy Double.not_found)
       (Double.args_with_cdm Double.page_url) Double.song_id Double.fresh
     = (Raise (SystemExit 1), Double.fresh).
Proof.
  split.
  - apply (key_required_exits (Double.healthy Double.not_found)
             (Double.args_bare Double.page_url) Double.song_id
             Double.parsed_manifest Double.fresh).
    + reflexivity.
    + reflexivity.
    + left. split; [reflexivity|]. split; [|split].
      * intros p Hp. discriminate Hp.
      * reflexivity.
      * constructor.
  - apply (key_required_exits (Double.healthy Double.not_found)
             (Double.args_with_cdm Double.page_url) Double.song_id
             Double.parsed_manifest Double.fresh).
    + reflexivity.
    + reflexivity.
    + right. left. exists Double.wvd_path. split; reflexivity.
Defined.

(** ** More on assembly and decryption *)

Section Assembly.
Import PyStr.
Variable env : Env.

Lemma set_fs_same st : set_fs (fs st) st = st.
Proof. destruct st; reflexivity. Qed.

(** The loop over media segments that are all served appends their bodies
    in order. *)
Lemma segment_loop_completes enc_path uris bodies st acc :
  Forall2 (served env) uris bodies ->
  fs st !! enc_path = Some acc ->
  for_each uris (append_segment env enc_path) st
  = (Ok tt, set_fs (<[enc_path := acc ++ concat bodies]> (fs st)) st).
Proof.
  intros Hserved. revert st acc.
  induction Hserved as [|uri body uris bodies Hs _ IH]; intros st acc Hacc;
    cbn [for_each concat].
  - rewrite app_nil_r, (insert_id _ _ _ Hacc), set_fs_same. reflexivity.
  - unfold bind. rewrite (append_segment_served env _ _ _ _ _ Hs Hacc).
    rewrite (IH _ (acc ++ body)) by apply lookup_insert_eq.
    cbn [set_fs fs]. rewrite insert_insert_eq, app_assoc. reflexivity.
Qed.

(** The assembly, when every segment is served. *)
Lemma assemble_segments_served (segs : StreamManifest) (init_resp : Response)
    (bodies : list (list byte)) (st : State) :
  http_get env (resolve_stream_uri (init_uri segs)) origin_header
  = Done init_resp ->
  Forall2 (served env) (segment_uris segs) bodies ->
  assemble_segments env segs st
  = (Ok (temp_name env (fs st) ".enc.m4a"),
     set_fs (<[temp_name env (fs st) ".enc.m4a"
               := content init_resp ++ concat bodies]> (fs st)) st).
Proof.
  intros Hinit Hserved.
  rewrite assemble_segments_unfold. cbv zeta. rewrite Hinit.
  rewrite (segment_loop_completes _ _ bodies _ (content init_resp) Hserved)
    by (cbn [set_fs fs]; rewrite insert_insert_eq; apply lookup_insert_eq).
  cbn [set_fs fs]. rewrite !insert_insert_eq. reflexivity.
Qed.

(** When the init segment is fetched and every media segment is served,
    the assembled file holds the init segment followed by the media
    segments in manifest order, and nothing else; no other file changes,
    no subprocess is run and the key system is not called. *)
Theorem assembled_stream_order (segs : StreamManifest) (init_resp : Response)
    (bodies : list (list byte)) (st : State) :
  http_get env (resolve_stream_uri (init_uri segs)) origin_header
  = Done init_resp ->
  Forall2 (served env) (segment_uris segs) bodies ->
  let enc_path := temp_name env (fs st) ".enc.m4a" in
  let run := assemble_segments env segs st in
  fst run = Ok enc_path
  /\ fs (snd run) !! enc_path = Some (content init_resp ++ concat bodies)
  /\ (forall p, p <> enc_path -> fs (snd run) !! p = fs st !! p)
  /\ quiet st (snd run).
Proof.
  intros Hinit Hserved. cbv zeta.
  rewrite (assemble_segments_served segs init_resp bodies st Hinit Hserved).
  cbn [fst snd set_fs fs].
  split; [reflexivity|]. split; [apply lookup_insert_eq|]. split.
  - intros p Hp. apply lookup_insert_ne. congruence.
  - apply quiet_set_fs.
Qed.

Lemma append_segment_fails enc_path seg e st :
  refused env seg e -> append_segment env enc_path seg st = (Raise e, st).
Proof.
  intros [(resp & Hget & Hstatus) | (why & Hget & ->)].
  - apply (append_segment_refused env _ _ resp); assumption.
  - unfold append_segment, SESSION_get, bind. rewrite Hget. reflexivity.
Qed.

(** The first media segment whose fetch fails, by an error status or at
    the transport level, ends the assembly: the failure is raised, no later
    segment is written, and the file holds the init segment and the
    segments before the failing one. *)
Theorem segment_failure_aborts_assembly (segs : StreamManifest)
    (init_resp : Response) (before after : list string)
    (bodies : list (list byte)) (seg : string) (e : exn) (st : State) :
  http_get env (resolve_stream_uri (init_uri segs)) origin_header
  = Done init_resp ->
  segment_uris segs = before ++ seg :: after ->
  Forall2 (served env) before bodies ->
  refused env seg e ->
  let enc_path := temp_name env (fs st) ".enc.m4a" in
  assemble_segments env segs st
  = (Raise e,
     set_fs (<[enc_path := content init_resp ++ concat bodies]> (fs st)) st).
Proof.
  intros Hinit Hsegs Hserved Hrefused. cbv zeta.
  rewrite assemble_segments_unfold. cbv zeta. rewrite Hinit, Hsegs.
  assert (Hloop : forall l bs s acc,
    Forall2 (served env) l bs ->
    fs s !! temp_name env (fs st) ".enc.m4a" = Some acc ->
    for_each (l ++ seg :: after)
      (append_segment env (temp_name env (fs st) ".enc.m4a")) s
    = (Raise e,
       set_fs (<[temp_name env (fs st) ".enc.m4a" := acc ++ concat bs]> (fs s)) s)).
  { intros l bs s acc H. revert s acc.
    induction H as [|uri body l bs Hs _ IH]; intros s acc Hacc;
      cbn [app for_each concat]; unfold bind.
    - rewrite (append_segment_fails _ _ _ _ Hrefused).
      rewrite app_nil_r, (insert_id _ _ _ Hacc), set_fs_same. reflexivity.
    - rewrite (append_segment_served env _ _ _ _ _ Hs Hacc).
      rewrite (IH _ (acc ++ body)) by apply lookup_insert_eq.
      cbn [set_fs fs]. rewrite insert_insert_eq, app_assoc. reflexivity. }
  rewrite (Hloop before bodies _ (content init_resp) Hserved)
    by (cbn [set_fs fs]; rewrite insert_insert_eq; apply lookup_insert_eq).
  cbn [set_fs fs]. rewrite !insert_insert_eq. reflexivity.
Qed.

(** The whole protected download, when the key is accepted, the manifest
    parses and every segment is served: the engine is run exactly once, on
    a file system in which the temporary file holds the init segment
    followed by the media segments in manifest order, with the normalised
    key; the temporary file is removed afterwards; the result is normal
    when the engine exits with status 0, and otherwise the decryption
    error carrying the diagnostic output of the engine. *)
Theorem download_drm_stream_outcome (song_id key_hex dest k : string)
    (manifest_resp init_resp : Response) (segs : StreamManifest)
    (bodies : list (list byte)) (cp : CompletedProcess) (files : FS)
    (st : State) :
  normalise_key key_hex = Ok k ->
  http_get env (manifest_url song_id) origin_header = Done manifest_resp ->
  raise_for_status manifest_resp = Ok tt ->
  parse_manifest song_id (text manifest_resp) = Ok segs ->
  http_get env (resolve_stream_uri (init_uri segs)) origin_header
  = Done init_resp ->
  Forall2 (served env) (segment_uris segs) bodies ->
  let enc_path := temp_name env (fs st) ".enc.m4a" in
  run_process env (ffmpeg_argv k enc_path dest)
    (<[enc_path := content init_resp ++ concat bodies]> (fs st))
  = Done (cp, files) ->
  download_drm_stream env song_id key_hex dest st
  = (if (returncode cp =? 0)%Z then Ok tt
     else Raise (RuntimeError ("ffmpeg decryption failed: " +:+ proc_stderr cp)),
     {| fs := delete enc_path files;
        cdm_calls := cdm_calls st;
        procs := procs st ++ [ffmpeg_argv k enc_path dest];
        dirs := dirs st |}).
Proof.
  intros Hkey Hget Hstatus Hparse Hinit Hserved. cbv zeta. intros Hrun.
  unfold download_drm_stream, lift_result. unfold bind at 1. rewrite Hkey.
  unfold bind at 1.
  assert (Hfetch : fetch_stream_segments env song_id st = (Ok segs, st)).
  { unfold fetch_stream_segments, SESSION_get, lift_result, bind.
    rewrite Hget. cbn [ret]. rewrite Hstatus, Hparse. reflexivity. }
  rewrite Hfetch. unfold bind at 1.
  rewrite (assemble_segments_served segs init_resp bodies st Hinit Hserved).
  unfold decrypt_and_cleanup, try_finally, subprocess_run, unlink, modify,
    bind, ret, raise.
  cbn [log_proc set_fs fs procs cdm_calls]. rewrite Hrun.
  destruct (returncode cp =? 0)%Z; reflexivity.
Qed.

(** [fetch_stream_segments] changes nothing, and fails in three ways only:
    the transport failure of the request, the HTTP error of an answer
    with a status from 400 to 599, or the manifest error; a manifest it
    returns is the parse of the text of a successful answer. *)
Theorem fetch_stream_segments_outcomes (song_id : string) (st : State) :
  let run := fetch_stream_segments env song_id st in
  snd run = st
  /\ match fst run with
     | Ok m =>
         exists resp,
           http_get env (manifest_url song_id) origin_header = Done resp
           /\ raise_for_status resp = Ok tt
           /\ parse_manifest song_id (text resp) = Ok m
     | Raise e =>
         e = no_segments
         \/ (exists status, e = HTTPError status /\ (400 <= status < 600)%Z)
         \/ (exists why, e = RequestException why)
     end.
Proof.
  cbv zeta. unfold fetch_stream_segments, SESSION_get, lift_result, bind.
  destruct (http_get env (manifest_url song_id) origin_header) as [resp|why];
    cbn [ret raise fst snd]; [|split; [reflexivity|]; right; right; eauto].
  destruct (raise_for_status resp) as [[]|e] eqn:Hstatus; cbn [fst snd].
  - destruct (parse_manifest song_id (text resp)) as [m|e] eqn:Hparse;
      cbn [fst snd]; (split; [reflexivity|]).
    + exists resp. auto.
    + left. unfold parse_manifest in Hparse.
      destruct (scan_segment_uris (text resp)); [|discriminate].
      injection Hparse as <-. reflexivity.
  - split; [reflexivity|]. right. left. unfold raise_for_status in Hstatus.
    destruct ((400 <=? status_code resp)%Z && (status_code resp <? 600)%Z)
      eqn:Hrange; [|discriminate].
    injection Hstatus as <-. exists (status_code resp). split; [reflexivity|].
    apply andb_true_iff in Hrange as [H1 H2].
    apply Z.leb_le in H1. apply Z.ltb_lt in H2. lia.
Qed.

End Assembly.

Lemma assembled_stream_order_witness :
  let run := assemble_segments (Double.healthy Double.not_found)
               Double.parsed_manifest Double.start in
  fst run = Ok Double.enc_path
  /\ fs (snd run) !! Double.enc_path
     = Some (Double.bytes "INIT"
             ++ concat [Double.bytes "SEG0"; Double.bytes "SEG1"]).
Proof.
  destruct (assembled_stream_order (Double.healthy Double.not_found)
              Double.parsed_manifest (Double.response 200 "INIT")
              [Double.bytes "SEG0"; Double.bytes "SEG1"] Double.start)
    as (Hok & Hfile & _ & _).
  - reflexivity.
  - repeat constructor.
    + exists (Double.response 200 "SEG0"). repeat split.
    + exists (Double.response 200 "SEG1"). repeat split.
  - split; [exact Hok | exact Hfile].
Defined.

Lemma segment_failure_aborts_assembly_witness :
  assemble_segments Double.seg1_unreachable Double.parsed_manifest Double.start
  = (Raise (RequestException "Connection refused"),
     set_fs (<[Double.enc_path := Double.bytes "INIT"
                                  ++ concat [Double.bytes "SEG0"]]>
               (fs Double.start)) Double.start).
Proof.
  apply (segment_failure_aborts_assembly Double.seg1_unreachable
           Double.parsed_manifest (Double.response 200 "INIT")
           ["seg0.m4s"] [] [Double.bytes "SEG0"] "/media/seg1.m4s").
  - reflexivity.
  - reflexivity.
  - repeat constructor. exists (Double.response 200 "SEG0"). repeat split.
  - right. exists "Connection refused". split; reflexivity.
Defined.

Lemma download_drm_stream_outcome_witness :
  download_drm_stream Double.engine_fails Double.song_id Double.a_key
    Double.m4a_dest Double.start
  = (Raise (RuntimeError "ffmpeg decryption failed: Invalid data"),
     {| fs := fs Double.start; cdm_calls := [];
        procs := [ffmpeg_argv "0123456789abcdef0123456789abcdef"
                    Double.enc_path Double.m4a_dest];
        dirs := Double.home_dirs |}).
Proof.
  rewrite (download_drm_stream_outcome Double.engine_fails Double.song_id
             Double.a_key Double.m4a_dest "0123456789abcdef0123456789abcdef"
             (Double.response 200 Double.manifest) (Double.response 200 "INIT")
             Double.parsed_manifest
             [Double.bytes "SEG0"; Double.bytes "SEG1"]
             {| returncode := 1; proc_stderr := "Invalid data" |}
             (<[Double.enc_path := Double.bytes "INIT"
                  ++ concat [Double.bytes "SEG0"; Double.bytes "SEG1"]]>
                (fs Double.start))
             Double.start).
  - reflexivity.
  - reflexivity.
  - reflexivity.
  - reflexivity.
  - reflexivity.
  - reflexivity.
  - repeat constructor.
    + exists (Double.response 200 "SEG0"). repeat split.
    + exists (Double.response 200 "SEG1"). repeat split.
  - reflexivity.
Defined.

(** ** Early exits of [main] *)

Section EarlyExits.
Import PyStr.
Variable env : Env.

(** The output directory is made first: when that fails, because a file
    is in the way, [main] raises that failure and nothing else is done.
    Once the directory is there, a failure to resolve the page is fatal
    and happens before anything else: when the page cannot be reached,
    is answered with an error status, or yields no metadata, [main]
    raises that failure and the state is as the creation of the output
    directory left it. *)
Theorem page_failure_is_fatal (args : Args) (st : State) :
  (forall e st1,
      mkdir_parents (output_dir args) st = (Raise e, st1) ->
      main env args st = (Raise e, st1))
  /\ (forall st1,
        mkdir_parents (output_dir args) st = (Ok tt, st1) ->
        (forall why,
            http_get env (args_url args) [] = Failed why ->
            main env args st = (Raise (RequestException why), st1))
        /\ (forall page,
              http_get env (args_url args) [] = Done page ->
              (400 <= status_code page < 600)%Z ->
              main env args st = (Raise (HTTPError (status_code page)), st1))
        /\ (forall page e,
              http_get env (args_url args) [] = Done page ->
              raise_for_status page = Ok tt ->
              song_metadata env (detect_platform (args_url args)) (text page)
                            (args_url args) = Raise e ->
              main env args st = (Raise e, st1))).
Proof.
  split.
  - intros e st1 Hmkdir. unfold main. unfold bind at 1. rewrite Hmkdir.
    reflexivity.
  - intros st1 Hmkdir. split; [|split].
    + intros why Hget. unfold main. unfold bind at 1. rewrite Hmkdir.
      unfold fetch_page, SESSION_get, bind. rewrite Hget. reflexivity.
    + intros page Hget Hstatus. unfold main. unfold bind at 1.
      rewrite Hmkdir. unfold fetch_page, SESSION_get, bind.
      rewrite Hget. cbn [ret]. unfold lift_result, raise_for_status.
      replace ((400 <=? status_code page)%Z && (status_code page <? 600)%Z)
        with true; [reflexivity|].
      symmetry. apply andb_true_iff.
      split; [apply Z.leb_le | apply Z.ltb_lt]; lia.
    + intros page e Hget Hstatus Hmeta. unfold main. unfold bind at 1.
      rewrite Hmkdir. unfold bind at 1.
      rewrite (fetch_page_ok _ _ _ _ Hget Hstatus).
      unfold lift_result, bind. rewrite Hmeta. reflexivity.
Qed.

(** When the output directory is there, the direct attempt fails and the
    metadata hold no usable track identifier (it is empty or "Unknown"),
    [main] exits with status 1 without starting the protected download:
    the state is as the creation of the output directory left it. *)
Theorem unknown_song_id_exits (args : Args) (info : SongInfo)
    (st st1 : State) :
  mkdir_parents (output_dir args) st = (Ok tt, st1) ->
  page_resolved env args info ->
  direct_refused env info \/ direct_unreachable env info ->
  id info = "" \/ id info = "Unknown" ->
  main env args st = (Raise (SystemExit 1), st1).
Proof.
  intros Hmkdir (page & Hpage & Hstatus & Hinfo) Hdirect Hid.
  unfold main. unfold bind at 1. rewrite Hmkdir.
  unfold bind at 1.
  rewrite (fetch_page_ok _ _ _ _ Hpage Hstatus).
  unfold lift_result. unfold bind at 1. rewrite Hinfo.
  unfold bind at 1.
  assert (Hattempt : forall dest, direct_attempt env info dest st1 = (Ok false, st1)).
  { intros dest. destruct Hdirect as [H|H];
      [apply direct_attempt_refused | apply direct_attempt_unreachable];
      exact H. }
  rewrite Hattempt.
  destruct (String.eqb (detect_platform (args_url args)) "suno");
    [reflexivity|].
  unfold drm_fallback. destruct Hid as [-> | ->]; reflexivity.
Qed.

End EarlyExits.

Lemma page_failure_is_fatal_witness :
  main (Double.healthy Double.not_found)
       (Double.args_with_key Double.nowhere_url) Double.start
  = (Raise (RequestException "Name or service not known"), Double.ready)
  /\ main (Double.healthy Double.not_found)
          (Double.args_with_key Double.page_url) Double.blocked
     = (Raise (OSError "File exists"), Double.blocked).
Proof.
  split.
  - apply (proj1 (proj2 (page_failure_is_fatal
                           (Double.healthy Double.not_found)
                           (Double.args_with_key Double.nowhere_url)
                           Double.start) Double.ready eq_refl)).
    reflexivity.
  - apply (proj1 (page_failure_is_fatal (Double.healthy Double.not_found)
                    (Double.args_with_key Double.page_url) Double.blocked)).
    reflexivity.
Defined.

Lemma unknown_song_id_exits_witness :
  main Double.anonymous (Double.args_with_key Double.page_url) Double.start
  = (Raise (SystemExit 1), Double.ready).
Proof.
  apply (unknown_song_id_exits Double.anonymous
           (Double.args_with_key Double.page_url) Double.anonymous_info
           Double.start Double.ready).
  - reflexivity.
  - exists (Double.response 200 "<html>"). repeat split.
  - left. exists (Double.response 404 "Not Found"). split; [reflexivity|].
    right. reflexivity.
  - right. reflexivity.
Defined.

Lemma encrypted_file_removed_after_assembly_witness :
  fs (snd (download_drm_stream Double.engine_fails Double.song_id Double.a_key
             Double.m4a_dest Double.start)) !! Double.enc_path = None.
Proof.
  apply (encrypted_file_removed_after_assembly Double.engine_fails
           Double.song_id Double.a_key Double.m4a_dest Double.start
           "0123456789abcdef0123456789abcdef" Double.parsed_manifest
           Double.start Double.enc_path
           (snd (assemble_segments Double.engine_fails Double.parsed_manifest
                   Double.start)));
    reflexivity.
Defined.
